(** * eRPC: session-management retransmission and two of its tests

    A shallow embedding of

    - [src/rpc_impl/rpc_sm_retry.cc]: the in-flight list of session-management
      requests and the retransmit sweep of an [Rpc] endpoint;
    - [tests/util_tests/timing_wheel_test.cc]: the transmit loop of
      [TimingWheelTest.RateTest];
    - [tests/test_req_in_req_func.cc]: the nested-request test (tags, random
      sizes, the three byte transformations).

    C++ [assert]s are modelled as checked: a failed assertion aborts the
    call, which the embedding renders as [None].  Reading a [Session] through
    a pointer that holds no session aborts in the same way. *)

From Stdlib Require Import ZArith QArith Lia.
From stdpp Require Import base decidable option list gmap strings.

Local Open Scope Z_scope.

(** 64-bit, 32-bit and 8-bit unsigned wrap-around. *)
Definition wrap64 (z : Z) : Z := z mod 2 ^ 64.
Definition wrap32 (z : Z) : Z := z mod 2 ^ 32.
Definition wrap8 (z : Z) : Z := z mod 2 ^ 8.

(** 16-bit unsigned wrap-around. *)
Definition wrap16 (z : Z) : Z := z mod 2 ^ 16.

(* ===================================================================== *)
(** * Session management retransmission ([rpc_sm_retry.cc]) *)
(* ===================================================================== *)

Module SmRetry.

(** Modelled from the spec: the endpoint descriptor of the management wire
    format ([hostname], transport type, endpoint id, session number, opaque
    transport material); its C++ declaration is not among the sources. *)
Record SessionEndpoint := mkSessionEndpoint {
  hostname : string;
  transport_type : Z;
  rpc_id : Z;
  session_num : Z;
  transport_specific : list Z
}.

(** Modelled from the spec: the five session states of the state machine;
    the enum's declaration is not among the sources, which name
    [kConnectInProgress], [kDisconnectWaitForConnect] and
    [kDisconnectInProgress]. *)
Inductive SessionState :=
| kConnectInProgress
| kConnected
| kDisconnectWaitForConnect
| kDisconnectInProgress
| kDisconnected.

(** Modelled from the spec: the four management packet kinds. *)
Inductive SessionMgmtPktType :=
| kConnectReq
| kConnectResp
| kDisconnectReq
| kDisconnectResp.

#[global] Instance SessionEndpoint_eq_dec : EqDecision SessionEndpoint.
Proof. solve_decision. Defined.
#[global] Instance SessionState_eq_dec : EqDecision SessionState.
Proof. solve_decision. Defined.
#[global] Instance SessionMgmtPktType_eq_dec : EqDecision SessionMgmtPktType.
Proof. solve_decision. Defined.

Module Session.
Inductive Role := kServer | kClient.

#[global] Instance Role_eq_dec : EqDecision Role.
Proof. solve_decision. Defined.

(** The fields of [Session] that [rpc_sm_retry.cc] reads. *)
Record t := mk {
  role : Role;
  state : SessionState;
  client : SessionEndpoint;
  server : SessionEndpoint
}.
End Session.

Module SessionMgmtPkt.
(** Modelled from the spec: a management packet carries its kind and the
    two descriptors (the status code is only meaningful on replies and is
    never written by the functions of this file). *)
Record t := mk {
  pkt_type : SessionMgmtPktType;
  client : SessionEndpoint;
  server : SessionEndpoint
}.

Definition set_client (p : t) (c : SessionEndpoint) : t :=
  mk (pkt_type p) c (server p).
Definition set_server (p : t) (s : SessionEndpoint) : t :=
  mk (pkt_type p) (client p) s.
End SessionMgmtPkt.

#[global] Instance SessionMgmtPkt_eq_dec : EqDecision SessionMgmtPkt.t.
Proof. solve_decision. Defined.

(** A [Session *] is an address; [NULL] is address 0. *)
Definition ptr := N.
Definition NULL : ptr := 0%N.

(** [in_flight_req_t]: the pair built by [in_flight_req_t(tsc, session)]. *)
Record in_flight_req_t := mk_in_flight_req {
  prev_tsc : Z;
  session : ptr
}.

Definition set_prev_tsc (tsc : Z) (req : in_flight_req_t) : in_flight_req_t :=
  mk_in_flight_req tsc (session req).

(** Modelled from the spec: [operator==] of [in_flight_req_t] is declared in
    [rpc.h], which is not among the sources.  An in-flight request is the
    tuple (session, last-send-tsc) and [remove_from_in_flight] looks a
    session up with a dummy whose timestamp is 0, so two requests are equal
    when they name the same session. *)
Definition in_flight_req_eqb (a b : in_flight_req_t) : bool :=
  bool_decide (session a = session b).

(** The part of the world [rpc_sm_retry.cc] touches: the memory holding the
    [Session] objects, the endpoint's table of sessions, its in-flight
    vector, and the management datagrams handed to the UDP client so far
    (destination hostname and packet, oldest first). *)
Record Rpc := mkRpc {
  sessions : gmap N Session.t;
  session_vec : list ptr;
  in_flight_vec : list in_flight_req_t;
  udp_out : list (string * SessionMgmtPkt.t)
}.

Definition set_in_flight_vec (v : list in_flight_req_t) (r : Rpc) : Rpc :=
  mkRpc (sessions r) (session_vec r) v (udp_out r).
Definition set_udp_out (o : list (string * SessionMgmtPkt.t)) (r : Rpc) : Rpc :=
  mkRpc (sessions r) (session_vec r) (in_flight_vec r) o.

(** ** A state-and-abort monad for member functions of [Rpc] *)

Definition M (A : Type) : Type := Rpc -> option (A * Rpc).

Definition ret {A} (a : A) : M A := fun r => Some (a, r).
Definition bind {A B} (m : M A) (k : A -> M B) : M B :=
  fun r => match m r with
           | Some (a, r') => k a r'
           | None => None
           end.
Definition abort {A} : M A := fun _ => None.
Definition gets {A} (f : Rpc -> A) : M A := fun r => Some (f r, r).
Definition modify (f : Rpc -> Rpc) : M unit := fun r => Some (tt, f r).

Notation "x <- c ;; k" := (bind c (fun x => k))
  (at level 62, c at next level, right associativity).
Notation "c ;;; k" := (bind c (fun _ => k))
  (at level 62, right associativity).

(** [assert(b)] *)
Definition assert_ (b : bool) : M unit := if b then ret tt else abort.

(** [*p] for a [Session *p] *)
Definition deref (p : ptr) : M Session.t :=
  fun r => match sessions r !! p with
           | Some s => Some (s, r)
           | None => None
           end.

(** The body [f i] of a loop, run for the indices of [idxs] in order. *)
Fixpoint for_each (f : nat -> M unit) (idxs : list nat) : M unit :=
  match idxs with
  | [] => ret tt
  | i :: rest => f i ;;; for_each f rest
  end.

(** Modelled from the spec: [is_session_managed] is declared in [rpc.h],
    which is not among the sources.  The endpoint holds a table of its
    sessions; a session is managed when that table holds it. *)
Definition is_session_managed (p : ptr) : M bool :=
  gets (fun r => bool_decide (p ∈ session_vec r)).

(** Modelled from the spec: [SessionMgmtPkt::send_to] is declared in a header
    that is not among the sources.  The management channel is an unreliable,
    hostname-addressed datagram channel; sending hands the packet to it. *)
Definition send_to (pkt : SessionMgmtPkt.t) (dst : string) : M unit :=
  modify (fun r => set_udp_out (udp_out r ++ [(dst, pkt)]) r).

(** What the code leaves to declarations that are not among the sources:
    [double] arithmetic ([to_sec], multiplication, [>]), the measured
    frequency [nexus->freq_ghz] and the constant [kSessionMgmtRetransMs]. *)
Class Externals := {
  double : Type;
  to_sec : Z -> double -> double;
  dmul : double -> double -> double;
  dgt : double -> double -> bool;
  double_of_int : Z -> double;
  freq_ghz : double;
  kSessionMgmtRetransMs : double
}.

(** [SessionMgmtPkt connect_req(SessionMgmtPktType::kConnectReq)]: the
    descriptors of a fresh packet hold nothing yet. *)
Definition empty_endpoint : SessionEndpoint :=
  mkSessionEndpoint "" 0 0 0 [].
Definition SessionMgmtPkt_new (ty : SessionMgmtPktType) : SessionMgmtPkt.t :=
  SessionMgmtPkt.mk ty empty_endpoint empty_endpoint.

Definition connect_state (st : SessionState) : bool :=
  bool_decide (st = kConnectInProgress) ||
  bool_decide (st = kDisconnectWaitForConnect).

Definition in_flight_state (st : SessionState) : bool :=
  bool_decide (st = kConnectInProgress) ||
  bool_decide (st = kDisconnectWaitForConnect) ||
  bool_decide (st = kDisconnectInProgress).

(** [Rpc::send_connect_req_one] *)
Definition send_connect_req_one (sess : ptr) : M unit :=
  assert_ (negb (bool_decide (sess = NULL))) ;;;
  managed <- is_session_managed sess ;;
  assert_ managed ;;;
  s <- deref sess ;;
  assert_ (bool_decide (Session.role s = Session.kClient)) ;;;
  assert_ (connect_state (Session.state s)) ;;;
  let connect_req := SessionMgmtPkt_new kConnectReq in
  let connect_req := SessionMgmtPkt.set_client connect_req (Session.client s) in
  let connect_req := SessionMgmtPkt.set_server connect_req (Session.server s) in
  send_to connect_req (hostname (Session.server s)).

(** [Rpc::send_disconnect_req_one]: the body is [_unused(session)]. *)
Definition send_disconnect_req_one (sess : ptr) : M unit :=
  ret tt.

(** The duplicate scan of [add_to_in_flight]. *)
Fixpoint assert_not_in_flight (sess : ptr) (v : list in_flight_req_t) : M unit :=
  match v with
  | [] => ret tt
  | req :: rest =>
      (if bool_decide (session req = sess) then assert_ false else ret tt) ;;;
      assert_not_in_flight sess rest
  end.

(** [Rpc::add_to_in_flight]; [tsc] is what [rdtsc()] returns. *)
Definition add_to_in_flight (sess : ptr) (tsc : Z) : M unit :=
  assert_ (negb (bool_decide (sess = NULL))) ;;;
  managed <- is_session_managed sess ;;
  assert_ managed ;;;
  s <- deref sess ;;
  assert_ (bool_decide (Session.role s = Session.kClient)) ;;;
  v <- gets in_flight_vec ;;
  assert_not_in_flight sess v ;;;
  modify (fun r => set_in_flight_vec (in_flight_vec r ++ [mk_in_flight_req tsc sess]) r).

(** The scan of [is_in_flight]. *)
Fixpoint is_in_flight_scan (sess : ptr) (v : list in_flight_req_t) : bool :=
  match v with
  | [] => false
  | req :: rest =>
      if bool_decide (session req = sess) then true
      else is_in_flight_scan sess rest
  end.

(** [Rpc::is_in_flight] *)
Definition is_in_flight (sess : ptr) : M bool :=
  v <- gets in_flight_vec ;;
  ret (is_in_flight_scan sess v).

(** [std::remove(first, last, value)] followed by [erase]: every element
    equal to [value] goes, the others keep their order. *)
Definition remove_erase (value : in_flight_req_t) (v : list in_flight_req_t)
  : list in_flight_req_t :=
  List.filter (fun req => negb (in_flight_req_eqb req value)) v.

(** [Rpc::remove_from_in_flight].  [initial_size - 1] cannot wrap: the
    assertion before it has just found an element. *)
Definition remove_from_in_flight (sess : ptr) : M unit :=
  assert_ (negb (bool_decide (sess = NULL))) ;;;
  managed <- is_session_managed sess ;;
  assert_ managed ;;;
  inflight <- is_in_flight sess ;;
  assert_ inflight ;;;
  initial_size <- gets (fun r => length (in_flight_vec r)) ;;
  let dummy_req := mk_in_flight_req 0 sess in
  modify (fun r => set_in_flight_vec (remove_erase dummy_req (in_flight_vec r)) r) ;;;
  new_size <- gets (fun r => length (in_flight_vec r)) ;;
  assert_ (bool_decide (Z.of_nat new_size = Z.of_nat initial_size - 1)).

Section Retry.
Context `{Externals}.

(** [elapsed_ms > kSessionMgmtRetransMs] for an entry last sent at
    [prev] when the clock reads [cur_tsc]. *)
Definition elapsed_cycles (cur_tsc prev : Z) : Z := wrap64 (cur_tsc - prev).
Definition elapsed_ms (cur_tsc prev : Z) : double :=
  dmul (to_sec (elapsed_cycles cur_tsc prev) freq_ghz) (double_of_int 1000).
Definition expired (cur_tsc : Z) (req : in_flight_req_t) : bool :=
  dgt (elapsed_ms cur_tsc (prev_tsc req)) kSessionMgmtRetransMs.

(** One iteration of the loop of [retry_in_flight]; [req] is a reference
    to element [i] of [in_flight_vec]. *)
Definition retry_one (cur_tsc : Z) (i : nat) : M unit :=
  v <- gets in_flight_vec ;;
  match v !! i with
  | None => abort
  | Some req =>
      assert_ (negb (bool_decide (session req = NULL))) ;;;
      s <- deref (session req) ;;
      let state := Session.state s in
      assert_ (in_flight_state state) ;;;
      assert_ (0 <? elapsed_cycles cur_tsc (prev_tsc req)) ;;;
      if expired cur_tsc req then
        match state with
        | kConnectInProgress
        | kDisconnectWaitForConnect => send_connect_req_one (session req)
        | kDisconnectInProgress => send_disconnect_req_one (session req)
        | _ => assert_ false
        end ;;;
        modify (fun r =>
          set_in_flight_vec (alter (set_prev_tsc cur_tsc) i (in_flight_vec r)) r)
      else ret tt
  end.

(** [Rpc::retry_in_flight]; [cur_tsc] is what [rdtsc()] returns. *)
Definition retry_in_flight (cur_tsc : Z) : M unit :=
  n <- gets (fun r => length (in_flight_vec r)) ;;
  assert_ (0 <? Z.of_nat n) ;;;
  for_each (retry_one cur_tsc) (seq 0 n).
End Retry.

(** ** Vocabulary for stating what the sweep does *)

(** The packet [send_connect_req_one] builds for a session. *)
Definition connect_req_of (s : Session.t) : SessionMgmtPkt.t :=
  SessionMgmtPkt.mk kConnectReq (Session.client s) (Session.server s).

Section SweepVocabulary.
Context `{Externals}.

(** What one iteration does to its entry, and what it sends. *)
Definition refresh (cur_tsc : Z) (req : in_flight_req_t) : in_flight_req_t :=
  if expired cur_tsc req then set_prev_tsc cur_tsc req else req.

Definition retrans_dgrams (cur_tsc : Z) (mem : gmap N Session.t)
    (req : in_flight_req_t) : list (string * SessionMgmtPkt.t) :=
  match mem !! session req with
  | Some s =>
      if expired cur_tsc req && connect_state (Session.state s)
      then [(hostname (Session.server s), connect_req_of s)]
      else []
  | None => []
  end.

(** The assertions an iteration meets on its entry all hold. *)
Definition entry_ok (cur_tsc : Z) (r : Rpc) (req : in_flight_req_t) : Prop :=
  session req <> NULL /\
  exists s, sessions r !! session req = Some s /\
    in_flight_state (Session.state s) = true /\
    0 < elapsed_cycles cur_tsc (prev_tsc req) /\
    (expired cur_tsc req = true -> connect_state (Session.state s) = true ->
     session req ∈ session_vec r /\ Session.role s = Session.kClient).

(** The loop over the indices [a, a+n): the entries in that range are
    refreshed, what they send is appended, nothing else moves. *)
Definition sweep_result (cur_tsc : Z) (a n : nat) (r : Rpc) : Rpc :=
  let mid := take n (drop a (in_flight_vec r)) in
  mkRpc (sessions r) (session_vec r)
    (take a (in_flight_vec r) ++ (refresh cur_tsc <$> mid) ++
     drop (a + n) (in_flight_vec r))
    (udp_out r ++ flat_map (retrans_dgrams cur_tsc (sessions r)) mid).

End SweepVocabulary.

(** ** Sample endpoints *)

(** Doubles read as exact rationals, a 2.5 GHz clock and a 5 ms threshold. *)
Definition ideal_externals : Externals := {|
  double := Q;
  to_sec := fun cycles ghz => (inject_Z cycles / (ghz * inject_Z 1000000000))%Q;
  dmul := Qmult;
  dgt := fun a b => negb (Qle_bool a b);
  double_of_int := inject_Z;
  freq_ghz := (5 # 2)%Q;
  kSessionMgmtRetransMs := inject_Z 5
|}.

Definition host_a : SessionEndpoint := mkSessionEndpoint "client-host" 1 0 0 [].
Definition host_b : SessionEndpoint := mkSessionEndpoint "server-host" 1 3 7 [].

Definition connecting : Session.t :=
  Session.mk Session.kClient kConnectInProgress host_a host_b.
Definition disconnecting : Session.t :=
  Session.mk Session.kClient kDisconnectInProgress host_a host_b.

(** Session 1 is connecting, session 2 is disconnecting; both were last
    sent at cycle 100. *)
Definition sample_rpc : Rpc :=
  mkRpc (<[1%N := connecting]> (<[2%N := disconnecting]> ∅)) [1%N; 2%N]
        [mk_in_flight_req 100 1%N; mk_in_flight_req 100 2%N] [].

(** The same endpoint with only the disconnecting session in flight. *)
Definition sample_rpc_disconnecting : Rpc :=
  mkRpc (<[1%N := connecting]> (<[2%N := disconnecting]> ∅)) [1%N; 2%N]
        [mk_in_flight_req 100 2%N] [].

(** The same endpoint with nothing in flight. *)
Definition sample_rpc_idle : Rpc :=
  mkRpc (<[1%N := connecting]> (<[2%N := disconnecting]> ∅)) [1%N; 2%N] [] [].

(** 10 ms later at 2.5 GHz. *)
Definition sample_later : Z := 100 + 25000000.

(** [sample_rpc] after a sweep at [sample_later]: both entries carry the new
    time, one connect-req has left. *)
Definition sample_rpc_swept : Rpc :=
  mkRpc (sessions sample_rpc) (session_vec sample_rpc)
        [mk_in_flight_req sample_later 1%N; mk_in_flight_req sample_later 2%N]
        [("server-host", connect_req_of connecting)].

(** An endpoint whose only in-flight entry is for a session that has
    connected since. *)
Definition connected_session : Session.t :=
  Session.mk Session.kClient kConnected host_a host_b.
Definition sample_rpc_settled : Rpc :=
  mkRpc (<[1%N := connected_session]> ∅) [1%N] [mk_in_flight_req 100 1%N] [].

(** How many entries of the in-flight vector name a session. *)
Definition occurrences (sess : ptr) (v : list in_flight_req_t) : nat :=
  length (List.filter (fun req => bool_decide (session req = sess)) v).

(** The states in which a session has settled and awaits no reply. *)
Definition settled_state (st : SessionState) : bool :=
  bool_decide (st = kConnected) || bool_decide (st = kDisconnected).

End SmRetry.

(* ===================================================================== *)
(** * The timing wheel rate test ([timing_wheel_test.cc]) *)
(* ===================================================================== *)

Module TimingWheelTest.

(** [wheel_ent_t(sslot, pkt_num)]; the test uses [wheel_ent_t(nullptr, 1)]. *)
Record wheel_ent_t := mk_wheel_ent {
  sslot : N;
  pkt_num : Z
}.

Definition dummy_ent : wheel_ent_t := mk_wheel_ent 0%N 1.

(** Modelled from the spec: the class [TimingWheel] of [cc/timing_wheel.h]
    is not among the sources.  A ring of buckets, the first of the list
    being the current one, which starts at [base_tsc]; and the ready
    queue. *)
Record TimingWheel := mkTimingWheel {
  wheel : list (list wheel_ent_t);
  base_tsc : Z;
  ready_queue : list wheel_ent_t
}.

Section Wheel.
(** The number of buckets and the width of a bucket in cycles. *)
Variable num_wslots : nat.
Variable wslot_width_tsc : Z.

(** Modelled from the spec: a new wheel has [num_wslots] empty buckets
    and an empty ready queue. *)
Definition TimingWheel_new (start_tsc : Z) : TimingWheel :=
  mkTimingWheel (replicate num_wslots []) start_tsc [].

(** Modelled from the spec: the bucket covering [desired_tsc]: the current
    bucket when [desired_tsc] is in the past or inside it, the last bucket
    when it lies beyond the horizon. *)
Definition wslot_of (tw : TimingWheel) (desired_tsc : Z) : nat :=
  if desired_tsc <? base_tsc tw + wslot_width_tsc then 0%nat
  else Z.to_nat (Z.min ((desired_tsc - base_tsc tw) / wslot_width_tsc)
                       (Z.of_nat num_wslots - 1)).

(** Modelled from the spec: [insert(entry, desired_tsc)] places the entry
    into the bucket covering [desired_tsc]. *)
Definition insert (ent : wheel_ent_t) (desired_tsc : Z) (tw : TimingWheel)
  : TimingWheel :=
  mkTimingWheel
    (alter (fun bkt => bkt ++ [ent]) (wslot_of tw desired_tsc) (wheel tw))
    (base_tsc tw) (ready_queue tw).

(** Modelled from the spec: crossing the current bucket drains its entries
    into the ready queue; the emptied bucket becomes the furthest one. *)
Definition advance (tw : TimingWheel) : TimingWheel :=
  match wheel tw with
  | [] => mkTimingWheel [] (base_tsc tw + wslot_width_tsc) (ready_queue tw)
  | bkt :: rest =>
      mkTimingWheel (rest ++ [[]]) (base_tsc tw + wslot_width_tsc)
                    (ready_queue tw ++ bkt)
  end.

(** Modelled from the spec: [reap(now_tsc)] advances one bucket at a time
    while [now_tsc >= base_tsc + w]. *)
Fixpoint reap_loop (fuel : nat) (now_tsc : Z) (tw : TimingWheel)
  : option TimingWheel :=
  match fuel with
  | O => None
  | S fuel' =>
      if base_tsc tw + wslot_width_tsc <=? now_tsc
      then reap_loop fuel' now_tsc (advance tw)
      else Some tw
  end.

Definition reap (now_tsc : Z) (tw : TimingWheel) : option TimingWheel :=
  reap_loop (S (Z.to_nat ((now_tsc - base_tsc tw) / wslot_width_tsc)))
            now_tsc tw.

(** [ready_queue.pop()]; popping an empty queue is undefined. *)
Definition pop (tw : TimingWheel) : option TimingWheel :=
  match ready_queue tw with
  | [] => None
  | _ :: rest => Some (mkTimingWheel (wheel tw) (base_tsc tw) rest)
  end.

(** [kSessionCredits], declared outside the sources. *)
Variable kSessionCredits : nat.

Definition num_pkts : Z := 10000.

(** The variables of [RateTest] that outlive an iteration. *)
Record RateTest := mkRateTest {
  the_wheel : TimingWheel;
  num_pkts_sent : Z;
  last_tsc : Z
}.

(** "Send one window": [n] times, insert at [last_tsc] and move
    [last_tsc] on by [cycles_per_pkt]. *)
Fixpoint send_window (n : nat) (cycles_per_pkt : Z) (tw : TimingWheel)
    (last : Z) : TimingWheel * Z :=
  match n with
  | O => (tw, last)
  | S n' =>
      send_window n' cycles_per_pkt (insert dummy_ent last tw)
                  (wrap64 (last + cycles_per_pkt))
  end.

(** "Send more": [n] times, insert at [last_tsc], move [last_tsc] on and
    pop the ready queue. *)
Fixpoint send_more (n : nat) (cycles_per_pkt : Z) (tw : TimingWheel)
    (last : Z) : option (TimingWheel * Z) :=
  match n with
  | O => Some (tw, last)
  | S n' =>
      match pop (insert dummy_ent last tw) with
      | Some tw' =>
          send_more n' cycles_per_pkt tw' (wrap64 (last + cycles_per_pkt))
      | None => None
      end
  end.

(** One iteration of [while (num_pkts_sent < num_pkts)]; [now_tsc] is what
    [rdtsc()] returns.  The result carries [num_ready]. *)
Definition while_body (now_tsc cycles_per_pkt : Z) (t : RateTest)
  : option (nat * RateTest) :=
  match reap now_tsc (the_wheel t) with
  | None => None
  | Some tw =>
      let num_ready := length (ready_queue tw) in
      if 0 <? Z.of_nat num_ready then
        let sent := wrap64 (num_pkts_sent t + Z.of_nat num_ready) in
        match send_more num_ready cycles_per_pkt tw (last_tsc t) with
        | Some (tw', last) => Some (num_ready, mkRateTest tw' sent last)
        | None => None
        end
      else Some (num_ready, mkRateTest tw (num_pkts_sent t) (last_tsc t))
  end.

(** [while (!wheel.ready_queue.empty()) wheel.ready_queue.pop()] *)
Definition drain (tw : TimingWheel) : TimingWheel :=
  mkTimingWheel (wheel tw) (base_tsc tw) [].

(** Where the test stands: at the head of the [for] loop before iteration
    [iters], at the head of the [while] loop of iteration [iters], or
    past the [for] loop. *)
Inductive pc :=
| AtFor (iters : nat)
| AtWhile (iters : nat) (cycles_per_pkt : Z)
| AtEnd.

(** The steps of [RateTest].  The clock readings and [cycles_per_pkt]
    (rounded from a random rate) are arbitrary. *)
Inductive step : pc * RateTest -> pc * RateTest -> Prop :=
| step_window iters t cycles_per_pkt tsc tw last :
    (iters < 5)%nat ->
    send_window kSessionCredits cycles_per_pkt (the_wheel t) tsc = (tw, last) ->
    step (AtFor iters, t)
         (AtWhile iters cycles_per_pkt, mkRateTest tw (num_pkts_sent t) last)
| step_while iters t cycles_per_pkt now_tsc num_ready t' :
    num_pkts_sent t < num_pkts ->
    while_body now_tsc cycles_per_pkt t = Some (num_ready, t') ->
    step (AtWhile iters cycles_per_pkt, t) (AtWhile iters cycles_per_pkt, t')
| step_exit iters t cycles_per_pkt :
    ~ num_pkts_sent t < num_pkts ->
    step (AtWhile iters cycles_per_pkt, t)
         (AtFor (S iters),
          mkRateTest (drain (the_wheel t)) (num_pkts_sent t) (last_tsc t))
| step_end iters t :
    ~ (iters < 5)%nat ->
    step (AtFor iters, t) (AtEnd, t).

(** The test starts with a new wheel and nothing sent. *)
Definition initial (start_tsc last : Z) : pc * RateTest :=
  (AtFor 0, mkRateTest (TimingWheel_new start_tsc) 0 last).

Inductive reachable (start_tsc last : Z) : pc * RateTest -> Prop :=
| reachable_initial : reachable start_tsc last (initial start_tsc last)
| reachable_step c c' :
    reachable start_tsc last c -> step c c' -> reachable start_tsc last c'.

(** The number of entries the buckets of the wheel hold. *)
Definition wheel_count (tw : TimingWheel) : nat := length (concat (wheel tw)).

(** A wheel has all its buckets. *)
Definition wheel_wf (tw : TimingWheel) : Prop :=
  length (wheel tw) = num_wslots.

(** What holds at every point of the test. *)
Definition test_inv (c : pc * RateTest) : Prop :=
  length (wheel (the_wheel c.2)) = num_wslots /\
  match c.1 with
  | AtFor O =>
      wheel_count (the_wheel c.2) = 0%nat /\
      ready_queue (the_wheel c.2) = []
  | AtWhile O _ =>
      wheel_count (the_wheel c.2) = kSessionCredits /\
      ready_queue (the_wheel c.2) = []
  | AtFor (S _) | AtWhile (S _) _ => num_pkts <= num_pkts_sent c.2
  | AtEnd => True
  end.
End Wheel.

(** A sample run: four buckets of ten cycles, a window of two packets sent
    every fifteen cycles from cycle 5 on. *)
Definition sample_window : TimingWheel * Z :=
  send_window 4 10 2 15 (TimingWheel_new 4 0) 5.
Definition sample_test : RateTest :=
  mkRateTest sample_window.1 0 sample_window.2.

(** Up to [n] turns of the transmit loop of the sample run, the clock
    reading [now_tsc] at the first and [step] cycles more at each next one. *)
Fixpoint run_while (n : nat) (now_tsc step : Z) (t : RateTest)
  : option RateTest :=
  match n with
  | O => Some t
  | S n' =>
      if num_pkts_sent t <? num_pkts then
        match while_body 4 10 now_tsc 15 t with
        | Some (_, t') => run_while n' (now_tsc + step) step t'
        | None => None
        end
      else Some t
  end.

(** [sample_test] once its transmit loop has sent all packets, then at the
    head of the second [for]-iteration, then at the head of the transmit
    loop of that iteration. *)
Definition sample_test_sent : RateTest :=
  Eval vm_compute in default sample_test (run_while (Z.to_nat 6000) 45 40 sample_test).
Definition sample_test_second : RateTest :=
  mkRateTest (drain (the_wheel sample_test_sent))
             (num_pkts_sent sample_test_sent) (last_tsc sample_test_sent).
Definition sample_window_second : TimingWheel * Z :=
  send_window 4 10 2 15 (the_wheel sample_test_second) 250000.
Definition sample_test_second_loop : RateTest :=
  mkRateTest sample_window_second.1 (num_pkts_sent sample_test_second)
             sample_window_second.2.

(** ** The test [Basic] *)

Section BasicTest.
Variable num_wslots : nat.
Variable wslot_width_tsc : Z.

(** The test up to its loop: a new wheel is reaped at the reading [t0] and
    [ASSERT_EQ(wheel.ready_queue.size(), 0)] is checked; one entry is
    inserted for [t1 + wslot_width_tsc], [t1] being the next reading. *)
Definition basic_prologue (start_tsc t0 t1 : Z) : option TimingWheel :=
  match reap wslot_width_tsc t0 (TimingWheel_new num_wslots start_tsc) with
  | None => None
  | Some tw =>
      if bool_decide (length (ready_queue tw) = 0%nat)
      then Some (insert num_wslots wslot_width_tsc dummy_ent
                        (wrap64 (t1 + wslot_width_tsc)) tw)
      else None
  end.

(** One turn of [while (true)]: reap at the reading [t]; the flag says
    whether the loop breaks. *)
Definition basic_poll (t : Z) (tw : TimingWheel) : option (bool * TimingWheel) :=
  match reap wslot_width_tsc t tw with
  | None => None
  | Some tw' => Some (bool_decide (0 < length (ready_queue tw'))%nat, tw')
  end.

(** Polling at the readings [ts] without breaking, the wheel that results. *)
Fixpoint basic_polls (ts : list Z) (tw : TimingWheel) : option TimingWheel :=
  match ts with
  | [] => Some tw
  | t :: rest =>
      match basic_poll t tw with
      | Some (_, tw') => basic_polls rest tw'
      | None => None
      end
  end.

(** The one entry of the test is in bucket [j] of the wheel, or already in
    the ready queue; nothing else is anywhere. *)
Definition entry_in_wslot (j : nat) (tw : TimingWheel) : Prop :=
  (j < num_wslots)%nat /\
  wheel tw = replicate j [] ++ [[dummy_ent]] ++ replicate (num_wslots - 1 - j) [] /\
  ready_queue tw = [].

Definition entry_ready (tw : TimingWheel) : Prop :=
  wheel tw = replicate num_wslots [] /\ ready_queue tw = [dummy_ent].
(** The entry is in the ready queue, or in a bucket that is over by the
    time [due]. *)
Definition entry_due (due : Z) (tw : TimingWheel) : Prop :=
  entry_ready tw \/
  exists j, entry_in_wslot j tw /\
    base_tsc tw + (Z.of_nat j + 1) * wslot_width_tsc <= due.
End BasicTest.

(** ** More about [RateTest] *)

(** What holds of the counters of [RateTest] at every point: each
    [for]-iteration leaves its window in the wheel. *)
Definition test_inv_counts (kSessionCredits : nat) (c : pc * RateTest) : Prop :=
  ready_queue (the_wheel c.2) = [] /\
  0 <= num_pkts_sent c.2 < num_pkts + Z.of_nat kSessionCredits /\
  match c.1 with
  | AtFor iters =>
      wheel_count (the_wheel c.2) = (iters * kSessionCredits)%nat /\
      (iters = 0%nat -> num_pkts_sent c.2 = 0)
  | AtWhile iters _ =>
      wheel_count (the_wheel c.2) = (S iters * kSessionCredits)%nat
  | AtEnd => True
  end.

End TimingWheelTest.

(* ===================================================================== *)
(** * The nested-request test ([test_req_in_req_func.cc]) *)
(* ===================================================================== *)

Module ReqInReq.

Definition kAppNumReqs : nat := 30.

(** ** [tag_t] *)

(** The union [tag_t] is eight bytes of storage.  The anonymous struct lays
    [req_i] at offset 0, [msgbuf_i] at offset 2 and [req_size] at offset 4;
    the member [tag] covers all eight, as
    [static_assert(sizeof(tag_t) == sizeof(size_t))] demands of a 64-bit
    [size_t].  The byte order of the machine is left open. *)
Inductive byte_order := LittleEndian | BigEndian.

Fixpoint le_bytes (n : nat) (v : Z) : list Z :=
  match n with
  | O => []
  | S n' => v mod 256 :: le_bytes n' (v / 256)
  end.

Fixpoint le_value (bs : list Z) : Z :=
  match bs with
  | [] => 0
  | b :: rest => b + 256 * le_value rest
  end.

(** Writing an [n]-byte unsigned integer to memory, and reading one. *)
Definition store (o : byte_order) (n : nat) (v : Z) : list Z :=
  match o with
  | LittleEndian => le_bytes n v
  | BigEndian => rev (le_bytes n v)
  end.

Definition load (o : byte_order) (bs : list Z) : Z :=
  match o with
  | LittleEndian => le_value bs
  | BigEndian => le_value (rev bs)
  end.

Definition tag_t := list Z.

Definition is_byte (b : Z) : Prop := 0 <= b < 256.

(** [tag_t(uint16_t req_i, uint16_t msgbuf_i, uint32_t req_size)] *)
Definition tag_of_fields (o : byte_order) (req_i msgbuf_i req_size : Z) : tag_t :=
  store o 2 req_i ++ store o 2 msgbuf_i ++ store o 4 req_size.

(** [tag_t(size_t tag)] *)
Definition tag_of_word (o : byte_order) (tag : Z) : tag_t := store o 8 tag.

(** The members [tag], [req_i], [msgbuf_i] and [req_size]. *)
Definition tag_word (o : byte_order) (t : tag_t) : Z := load o (take 8 t).
Definition tag_req_i (o : byte_order) (t : tag_t) : Z := load o (take 2 t).
Definition tag_msgbuf_i (o : byte_order) (t : tag_t) : Z :=
  load o (take 2 (drop 2 t)).
Definition tag_req_size (o : byte_order) (t : tag_t) : Z :=
  load o (take 4 (drop 4 t)).

(** ** [get_rand_msg_size] *)

(** [kMaxMsgSize] is declared outside the sources; [sample] is what
    [fast_rand.next_u32()] returns.  The remainder by zero is undefined. *)
Definition get_rand_msg_size (kMaxMsgSize : Z) (sample : Z) : option Z :=
  if kMaxMsgSize =? 0 then None
  else
    let msg_size := wrap32 (sample mod kMaxMsgSize) in
    let msg_size := if msg_size =? 0 then 1 else msg_size in
    Some msg_size.

(** ** Buffers and loops *)

(** The data bytes of a [MsgBuffer]; [get_data_size()] is their number. *)
Abbreviation MsgBuffer := (list Z).

(** [alloc_msg_buffer(size)]: the bytes of a fresh buffer are written before
    they are read; they are taken to be zero. *)
Definition alloc_msg_buffer (size : nat) : MsgBuffer := replicate size 0.

(** [for (size_t i = i0; i < i0 + n; i++) body] *)
Fixpoint for_loop {St : Type} (body : nat -> St -> option St) (i n : nat)
    (s : St) : option St :=
  match n with
  | O => Some s
  | S n' =>
      match body i s with
      | Some s' => for_loop body (S i) n' s'
      | None => None
      end
  end.

(** [buf[i] = v] for a [uint8_t] buffer; writing past the end is undefined. *)
Definition store_byte (i : nat) (v : Z) (buf : MsgBuffer) : option MsgBuffer :=
  if bool_decide (i < length buf)%nat then Some (<[i := wrap8 v]> buf) else None.

(** What the three loops store: [b + 1] converted to [uint8_t]. *)
Definition plus_one (b : Z) : Z := wrap8 (b + 1).

(** [dst.buf[i] = src.buf[i] + 1] for [i < n] *)
Definition plus_one_loop (src : MsgBuffer) (n : nat) (dst : MsgBuffer)
  : option MsgBuffer :=
  for_loop (fun i dst => b ← src !! i; store_byte i (b + 1) dst) 0 n dst.

(** ** Server side *)

(** [ServerReqInfo], less the request handle. *)
Record ServerReqInfo := mkServerReqInfo {
  req_size_cs : nat;
  req_msgbuf_ss : MsgBuffer
}.

(** [req_handler_cs]: the result is the info saved in the tag; its
    [req_msgbuf_ss] is the request enqueued to server 1. *)
Definition req_handler_cs (req_msgbuf_cs : MsgBuffer) : option ServerReqInfo :=
  let req_size_cs := length req_msgbuf_cs in
  let req_msgbuf_ss := alloc_msg_buffer req_size_cs in
  req_msgbuf_ss ← plus_one_loop req_msgbuf_cs req_size_cs req_msgbuf_ss;
  Some (mkServerReqInfo req_size_cs req_msgbuf_ss).

(** [req_handler_ss]: the result is the response enqueued to server 0. *)
Definition req_handler_ss (req_msgbuf_ss : MsgBuffer) : option MsgBuffer :=
  let req_size := length req_msgbuf_ss in
  let dyn_resp_msgbuf := alloc_msg_buffer req_size in
  plus_one_loop req_msgbuf_ss req_size dyn_resp_msgbuf.

(** [server_cont_func]: the result is the response enqueued to the client.
    The second assertion compares [int]s, with no wrap-around. *)
Definition server_cont_func (srv_req_info : ServerReqInfo)
    (resp_msgbuf_ss : MsgBuffer) : option MsgBuffer :=
  let req_size_cs := req_size_cs srv_req_info in
  let req_msgbuf_ss := req_msgbuf_ss srv_req_info in
  if bool_decide (length resp_msgbuf_ss = req_size_cs) then
    _ ← for_loop (fun i (_ : unit) =>
                    a ← req_msgbuf_ss !! i;
                    b ← resp_msgbuf_ss !! i;
                    if a + 1 =? b then Some tt else None)
                 0 req_size_cs tt;
    let dyn_resp_msgbuf := alloc_msg_buffer req_size_cs in
    plus_one_loop resp_msgbuf_ss req_size_cs dyn_resp_msgbuf
  else None.

(** Modelled from the spec: the runtime, which is not among the sources,
    hands a request to the handler of its type and a response to the
    continuation of its request, bytes unchanged.  So a client request to
    server 0 comes back as what [server_cont_func] builds from the response
    of [req_handler_ss] to the request of [req_handler_cs]. *)
Definition nested_request (req_msgbuf_cs : MsgBuffer) : option MsgBuffer :=
  srv_req_info ← req_handler_cs req_msgbuf_cs;
  resp_msgbuf_ss ← req_handler_ss (req_msgbuf_ss srv_req_info);
  server_cont_func srv_req_info resp_msgbuf_ss.

(** ** Client side *)

(** The buffer [client_request_helper] sends: [req_size] bytes, each
    [(uint8_t)msgbuf_i].  [kSessionReqWindow] is declared outside the
    sources. *)
Definition client_request_helper (kSessionReqWindow : nat)
    (msgbuf_i : nat) (req_size : nat) : option MsgBuffer :=
  if bool_decide (msgbuf_i < kSessionReqWindow)%nat then
    for_loop (fun i buf => store_byte i (Z.of_nat msgbuf_i) buf)
             0 req_size (alloc_msg_buffer req_size)
  else None.

(** The checks of [client_cont_func]: the size, then every byte against
    [((uint8_t)msgbuf_i) + 3], compared as [int]s. *)
Definition client_cont_check (resp_msgbuf : MsgBuffer) (req_size : nat)
    (msgbuf_i : Z) : bool :=
  bool_decide (length resp_msgbuf = req_size) &&
  forallb (fun b => b =? wrap8 msgbuf_i + 3) (take req_size resp_msgbuf).

(** ** The pointer member of [tag_t] *)

(** [tag_t(ServerReqInfo *srv_req_info_ptr)] and the member
    [srv_req_info_ptr]: a pointer fills the eight bytes. *)
Definition tag_of_ptr (o : byte_order) (p : Z) : tag_t := store o 8 p.
Definition tag_ptr (o : byte_order) (t : tag_t) : Z := load o (take 8 t).

(** ** The client thread *)

(** A request [MsgBuffer] of the client: the memory it was allocated with,
    the first [data_size] bytes of which are its data. *)
Record ClientBuf := mkClientBuf {
  buf : list Z;
  data_size : nat
}.

Definition buf_data (b : ClientBuf) : MsgBuffer := take (data_size b) (buf b).

(** Modelled from the spec: a request the runtime has accepted and not yet
    answered.  It holds the tag word and the request buffer it was given,
    here the index of the buffer in [req_msgbuf], the buffer itself staying
    with the client. *)
Record Pending := mkPending {
  pend_tag : Z;
  pend_msgbuf : nat
}.

(** [AppContext], with the requests the runtime holds for it. *)
Record Client := mkClient {
  req_msgbuf : list (option ClientBuf);
  num_reqs_sent : Z;
  num_rpc_resps : Z;
  pending : list Pending
}.

Section ClientThread.
(** The byte order of the machine, [Session::kSessionReqWindow] and
    [Rpc::kMaxMsgSize]. *)
Variable o : byte_order.
Variable kSessionReqWindow : nat.
Variable kMaxMsgSize : Z.

(** Modelled from the spec: [alloc_msg_buffer(kMaxMsgSize)]. *)
Definition alloc_max : ClientBuf :=
  mkClientBuf (replicate (Z.to_nat kMaxMsgSize) 0) (Z.to_nat kMaxMsgSize).

(** Modelled from the spec: [resize_msg_buffer(buf, new_size)] changes the
    size of the data; the new size must fit the allocated memory. *)
Definition resize_msg_buffer (b : ClientBuf) (new_size : nat) : option ClientBuf :=
  if bool_decide (new_size <= length (buf b))%nat
  then Some (mkClientBuf (buf b) new_size) else None.

(** Modelled from the spec: [enqueue_request] returns 0 and holds the
    request when a slot of the session's window is free, and an error code
    otherwise. *)
Definition enqueue_request (msgbuf_i : nat) (tag : Z) (c : Client) : Z * Client :=
  if bool_decide (length (pending c) < kSessionReqWindow)%nat
  then (0, mkClient (req_msgbuf c) (num_reqs_sent c) (num_rpc_resps c)
                    (pending c ++ [mkPending tag msgbuf_i]))
  else (-1, c).

(** Modelled from the spec: [release_respone(resp_handle)] frees the slot of
    the answered request, the [k]-th the runtime holds. *)
Definition release_respone (k : nat) (c : Client) : Client :=
  mkClient (req_msgbuf c) (num_reqs_sent c) (num_rpc_resps c)
           (delete k (pending c)).

(** [client_request_helper], in full; [sample] is what
    [fast_rand.next_u32()] returns. *)
Definition client_request_helper_full (sample : Z) (msgbuf_i : nat) (c : Client)
  : option Client :=
  if bool_decide (msgbuf_i < kSessionReqWindow)%nat then
    req_size ← get_rand_msg_size kMaxMsgSize sample;
    slot ← req_msgbuf c !! msgbuf_i;
    b ← slot;
    b ← resize_msg_buffer b (Z.to_nat req_size);
    mem ← for_loop (fun i mem => store_byte i (Z.of_nat msgbuf_i) mem)
                   0 (Z.to_nat req_size) (buf b);
    let c := mkClient (<[msgbuf_i := Some (mkClientBuf mem (data_size b))]>
                         (req_msgbuf c))
                      (num_reqs_sent c) (num_rpc_resps c) (pending c) in
    let tag := tag_of_fields o (wrap16 (num_reqs_sent c))
                 (wrap16 (Z.of_nat msgbuf_i)) (wrap32 req_size) in
    let '(ret, c) := enqueue_request msgbuf_i (tag_word o tag) c in
    if ret =? 0 then
      Some (mkClient (req_msgbuf c) (wrap64 (num_reqs_sent c + 1))
                     (num_rpc_resps c) (pending c))
    else None
  else None.

(** [client_cont_func] for the response to the [k]-th request the runtime
    holds.  A failed [ASSERT_EQ] ends the test. *)
Definition client_cont_func (sample : Z) (k : nat) (resp_msgbuf : MsgBuffer)
    (_tag : Z) (c : Client) : option Client :=
  let tag := tag_of_word o _tag in
  let req_size := tag_req_size o tag in
  let msgbuf_i := tag_msgbuf_i o tag in
  if client_cont_check resp_msgbuf (Z.to_nat req_size) msgbuf_i then
    let c := mkClient (req_msgbuf c) (num_reqs_sent c)
                      (wrap64 (num_rpc_resps c + 1)) (pending c) in
    let c := release_respone k c in
    if num_reqs_sent c <? Z.of_nat kAppNumReqs
    then client_request_helper_full sample (Z.to_nat msgbuf_i) c
    else Some c
  else None.

(** Modelled from the spec: the runtime answers a request it holds with what
    the servers make of the data of its buffer, and calls the continuation
    with the response and the tag of the request. *)
Definition deliver (sample : Z) (k : nat) (c : Client) : option Client :=
  p ← pending c !! k;
  slot ← req_msgbuf c !! pend_msgbuf p;
  b ← slot;
  resp ← nested_request (buf_data b);
  client_cont_func sample k resp (pend_tag p) c.

(** The start of [client_thread]: for every index of the window, allocate
    the buffer and send a first request.  [samples] are the numbers drawn. *)
Definition client_start (samples : list Z) : option Client :=
  for_loop (fun i c =>
              let c := mkClient (<[i := Some alloc_max]> (req_msgbuf c))
                                (num_reqs_sent c) (num_rpc_resps c) (pending c) in
              client_request_helper_full (nth i samples 0) i c)
           0 kSessionReqWindow
           (mkClient (replicate kSessionReqWindow None) 0 0 []).

(** The states of the client thread once the window is filled: responses
    arrive in any order, each for a request the runtime holds. *)
Inductive client_reachable (samples : list Z) : Client -> Prop :=
| client_started c :
    client_start samples = Some c -> client_reachable samples c
| client_delivered c sample k c' :
    client_reachable samples c ->
    deliver sample k c = Some c' ->
    client_reachable samples c'.

(** What a request the runtime holds is sure of: its buffer exists and
    still holds the bytes it was filled with, [req_size] times the fill byte
    of its index, and its tag names that index and that size. *)
Definition pending_ok (c : Client) (p : Pending) : Prop :=
  exists b req_size,
    (pend_msgbuf p < kSessionReqWindow)%nat /\
    req_msgbuf c !! pend_msgbuf p = Some (Some b) /\
    1 <= req_size < kMaxMsgSize /\
    buf_data b
    = replicate (Z.to_nat req_size) (wrap8 (Z.of_nat (pend_msgbuf p))) /\
    tag_req_size o (tag_of_word o (pend_tag p)) = req_size /\
    tag_msgbuf_i o (tag_of_word o (pend_tag p)) = Z.of_nat (pend_msgbuf p).

(** An allocated buffer has [kMaxMsgSize] bytes of memory. *)
Definition slot_cap (slot : option ClientBuf) : Prop :=
  forall b, slot = Some b -> length (buf b) = Z.to_nat kMaxMsgSize.

(** What holds of the client thread from its first line on. *)
Definition client_core (c : Client) : Prop :=
  length (req_msgbuf c) = kSessionReqWindow /\
  Forall slot_cap (req_msgbuf c) /\
  NoDup (pend_msgbuf <$> pending c) /\
  Forall (pending_ok c) (pending c).

(** What holds of the client thread once the window is filled. *)
Definition client_inv (c : Client) : Prop :=
  length (req_msgbuf c) = kSessionReqWindow /\
  Forall (fun slot => exists b, slot = Some b /\
                        length (buf b) = Z.to_nat kMaxMsgSize) (req_msgbuf c) /\
  0 <= num_rpc_resps c /\
  num_reqs_sent c = num_rpc_resps c + Z.of_nat (length (pending c)) /\
  num_reqs_sent c <= Z.of_nat kAppNumReqs /\
  (num_reqs_sent c < Z.of_nat kAppNumReqs ->
   length (pending c) = kSessionReqWindow) /\
  (length (pending c) <= kSessionReqWindow)%nat /\
  NoDup (pend_msgbuf <$> pending c) /\
  Forall (pending_ok c) (pending c).
End ClientThread.

(** A sample client: a little-endian machine, a window of two requests,
    messages of up to three bytes, and the numbers 5 and 6 drawn at the
    start.  [sample_client] is the client once the window is filled. *)
Definition sample_client : Client :=
  Eval vm_compute in
    default (mkClient [] 0 0 []) (client_start LittleEndian 2 4 [5; 6]).

(** Answering, [n] times, the oldest request the runtime holds, the number
    9 being drawn each time. *)
Fixpoint answer_oldest (n : nat) (c : Client) : option Client :=
  match n with
  | O => Some c
  | S n' =>
      match deliver LittleEndian 2 4 9 0 c with
      | Some c' => answer_oldest n' c'
      | None => None
      end
  end.

(** [sample_client] after thirty responses. *)
Definition sample_client_done : Client :=
  Eval vm_compute in
    default (mkClient [] 0 0 []) (answer_oldest 30 sample_client).

End ReqInReq.

(* ===================================================================== *)
(** * Facts about the in-flight list and the retransmit sweep *)
(* ===================================================================== *)

Section SmRetryFacts.
Import SmRetry.

(** ** Running the monad *)

Lemma bind_Some {A B} (m : M A) (k : A -> M B) r b r' :
  bind m k r = Some (b, r') <->
  exists a r1, m r = Some (a, r1) /\ k a r1 = Some (b, r').
Proof.
  unfold bind. split.
  - destruct (m r) as [[a r1]|]; [eauto | discriminate].
  - intros (a & r1 & -> & Hk). exact Hk.
Qed.

Lemma assert_Some b r u r' :
  assert_ b r = Some (u, r') <-> b = true /\ r' = r.
Proof.
  destruct u. unfold assert_, ret, abort. destruct b.
  - split; [intros [= <-]; auto | intros [_ ->]; reflexivity].
  - split; [discriminate | intros [? _]; discriminate].
Qed.

Lemma for_each_app f l1 l2 r r' :
  for_each f (l1 ++ l2) r = Some (tt, r') <->
  exists r1, for_each f l1 r = Some (tt, r1) /\ for_each f l2 r1 = Some (tt, r').
Proof.
  revert r. induction l1 as [|i l1 IH]; intros r; simpl.
  - split.
    + intros Hl. exists r. split; [reflexivity | exact Hl].
    + intros (r1 & [= <-] & Hl). exact Hl.
  - rewrite bind_Some. split.
    + intros ([] & r0 & Hf & Hrest). apply IH in Hrest as (r1 & H1 & H2).
      exists r1. split; [| exact H2]. apply bind_Some. eauto.
    + intros (r1 & H1 & H2). apply bind_Some in H1 as ([] & r0 & Hf & H1).
      exists tt, r0. split; [exact Hf |]. apply IH. eauto.
Qed.

(** ** [send_connect_req_one] *)

Lemma send_connect_req_one_spec sess r r' :
  send_connect_req_one sess r = Some (tt, r') <->
  sess <> NULL /\ sess ∈ session_vec r /\
  exists s, sessions r !! sess = Some s /\
    Session.role s = Session.kClient /\
    connect_state (Session.state s) = true /\
    r' = set_udp_out
           (udp_out r ++ [(hostname (Session.server s), connect_req_of s)]) r.
Proof.
  unfold send_connect_req_one, is_session_managed, deref, send_to, gets, modify.
  unfold bind, assert_, ret, abort.
  destruct (bool_decide_reflect (sess = NULL)) as [E|E]; simpl.
  { split; [discriminate | intros [? _]; contradiction]. }
  destruct (bool_decide_reflect (sess ∈ session_vec r)) as [Hm|Hm]; simpl.
  2: { split; [discriminate | intros (_ & ? & _); contradiction]. }
  destruct (sessions r !! sess) as [s|] eqn:Hs; simpl.
  2: { split; [discriminate | intros (_ & _ & s & ? & _); discriminate]. }
  destruct (bool_decide_reflect (Session.role s = Session.kClient)) as [Hr|Hr]; simpl.
  2: { split; [discriminate |].
       intros (_ & _ & s' & [= <-] & ? & _); contradiction. }
  destruct (connect_state (Session.state s)) eqn:Hc; simpl.
  2: { split; [discriminate |].
       intros (_ & _ & s' & [= <-] & _ & ? & _); congruence. }
  split.
  - intros [= <-]. repeat split; auto. exists s. repeat split; auto.
  - intros (_ & _ & s' & [= <-] & _ & _ & ->). reflexivity.
Qed.

(** ** The retransmit sweep *)

Lemma alter_as_insert {A} (f : A -> A) (l : list A) i x :
  l !! i = Some x -> alter f i l = <[i := f x]> l.
Proof.
  revert i. induction l as [|y l IH]; intros [|i] Hi; simpl in *; try discriminate.
  - injection Hi as ->. reflexivity.
  - f_equal. apply IH, Hi.
Qed.

Section Sweep.
Context `{Externals}.

Lemma retry_one_spec cur_tsc i r r' :
  retry_one cur_tsc i r = Some (tt, r') <->
  exists req, in_flight_vec r !! i = Some req /\ entry_ok cur_tsc r req /\
    r' = mkRpc (sessions r) (session_vec r)
           (<[i := refresh cur_tsc req]> (in_flight_vec r))
           (udp_out r ++ retrans_dgrams cur_tsc (sessions r) req).
Proof.
  unfold retry_one. rewrite bind_Some. unfold gets at 1. split.
  - intros (v & r1 & [= <- <-] & Hrun).
    destruct (in_flight_vec r !! i) as [req|] eqn:Hi; [| discriminate].
    exists req. split; [reflexivity |].
    apply bind_Some in Hrun as ([] & r1 & Hnull & Hrun).
    apply assert_Some in Hnull as [Hnull ->].
    apply negb_true_iff, bool_decide_eq_false in Hnull.
    apply bind_Some in Hrun as (s & r1 & Hs & Hrun).
    unfold deref in Hs.
    destruct (sessions r !! session req) as [s'|] eqn:Hmem; [| discriminate].
    injection Hs as -> <-.
    apply bind_Some in Hrun as ([] & r1 & Hst & Hrun).
    apply assert_Some in Hst as [Hst ->].
    apply bind_Some in Hrun as ([] & r1 & Hel & Hrun).
    apply assert_Some in Hel as [Hel ->].
    apply Z.ltb_lt in Hel.
    unfold entry_ok, refresh, retrans_dgrams. rewrite Hmem.
    destruct (expired cur_tsc req) eqn:Hexp; simpl.
    + apply bind_Some in Hrun as ([] & r1 & Hsend & Hmod).
      unfold modify in Hmod. injection Hmod as <-.
      destruct (connect_state (Session.state s)) eqn:Hc.
      * assert (send_connect_req_one (session req) r = Some (tt, r1)) as Hsc.
        { unfold connect_state in Hc.
          destruct (Session.state s); simpl in Hc; try discriminate; exact Hsend. }
        apply send_connect_req_one_spec in Hsc
          as (_ & Hm & s' & Hs' & Hrole & _ & ->).
        rewrite Hmem in Hs'. injection Hs' as <-.
        split; [split; [exact Hnull |]; exists s; auto |].
        unfold set_in_flight_vec, set_udp_out; simpl.
        rewrite (alter_as_insert _ _ _ _ Hi). reflexivity.
      * assert (r1 = r) as ->.
        { unfold connect_state, in_flight_state in Hc, Hst.
          destruct (Session.state s); simpl in Hc, Hst; try discriminate.
          unfold send_disconnect_req_one, ret in Hsend. congruence. }
        split; [split; [exact Hnull |]; exists s; repeat split; auto; intros; congruence |].
        unfold set_in_flight_vec; simpl.
        rewrite (alter_as_insert _ _ _ _ Hi), app_nil_r. reflexivity.
    + unfold ret in Hrun. injection Hrun as <-.
      split; [split; [exact Hnull |]; exists s; repeat split; auto; intros; congruence |].
      rewrite (list_insert_id _ _ _ Hi), app_nil_r. destruct r; reflexivity.
  - intros (req & Hi & (Hnull & s & Hmem & Hst & Hel & Hconn) & ->).
    exists (in_flight_vec r), r. split; [reflexivity |].
    rewrite Hi. apply bind_Some. exists tt, r. split.
    { apply assert_Some. split; [| reflexivity].
      apply negb_true_iff, bool_decide_eq_false. exact Hnull. }
    apply bind_Some. exists s, r. split.
    { unfold deref. rewrite Hmem. reflexivity. }
    apply bind_Some. exists tt, r. split.
    { apply assert_Some. auto. }
    apply bind_Some. exists tt, r. split.
    { apply assert_Some. split; [apply Z.ltb_lt, Hel | reflexivity]. }
    unfold refresh, retrans_dgrams. rewrite Hmem.
    destruct (expired cur_tsc req) eqn:Hexp; simpl.
    + destruct (connect_state (Session.state s)) eqn:Hc.
      * destruct (Hconn eq_refl eq_refl) as [Hm Hrole].
        apply bind_Some.
        exists tt, (set_udp_out
          (udp_out r ++ [(hostname (Session.server s), connect_req_of s)]) r).
        split.
        { assert (send_connect_req_one (session req) r = Some (tt,
            set_udp_out (udp_out r ++
              [(hostname (Session.server s), connect_req_of s)]) r)) as Hsc.
          { apply send_connect_req_one_spec. repeat split; auto.
            exists s. auto. }
          unfold connect_state in Hc.
          destruct (Session.state s); simpl in Hc; try discriminate; exact Hsc. }
        unfold modify, set_in_flight_vec, set_udp_out; simpl.
        rewrite (alter_as_insert _ _ _ _ Hi). reflexivity.
      * apply bind_Some. exists tt, r. split.
        { unfold connect_state, in_flight_state in Hc, Hst.
          destruct (Session.state s); simpl in Hc, Hst; try discriminate.
          reflexivity. }
        unfold modify, set_in_flight_vec; simpl.
        rewrite (alter_as_insert _ _ _ _ Hi), app_nil_r. reflexivity.
    + rewrite (list_insert_id _ _ _ Hi), app_nil_r. destruct r; reflexivity.
Qed.

Lemma retry_loop_spec cur_tsc n : forall a r r',
  (a + n <= length (in_flight_vec r))%nat ->
  for_each (retry_one cur_tsc) (seq a n) r = Some (tt, r') <->
  Forall (entry_ok cur_tsc r) (take n (drop a (in_flight_vec r))) /\
  r' = sweep_result cur_tsc a n r.
Proof.
  induction n as [|n IH]; intros a r r' Hlen.
  - unfold sweep_result. simpl. rewrite Nat.add_0_r, take_drop, app_nil_r.
    unfold ret. split.
    + intros [= <-]. split; [constructor | destruct r; reflexivity].
    + intros [_ ->]. destruct r; reflexivity.
  - destruct (lookup_lt_is_Some_2 (in_flight_vec r) a) as [req Ha]; [lia |].
    assert (forall x, take (S a) (<[a := x]> (in_flight_vec r))
                      = take a (in_flight_vec r) ++ [x]) as Htake.
    { intros x. rewrite take_insert_lt by lia.
      rewrite (take_S_r _ _ _ Ha).
      rewrite insert_app_r_alt by (rewrite length_take; lia).
      rewrite length_take, Nat.min_l by lia. rewrite Nat.sub_diag. reflexivity. }
    simpl seq. cbn [for_each]. rewrite bind_Some.
    rewrite (drop_S _ _ _ Ha). simpl take. rewrite Forall_cons.
    split.
    + intros ([] & r1 & Hone & Hrest).
      apply retry_one_spec in Hone as (req' & Ha' & Hok & ->).
      rewrite Ha in Ha'. injection Ha' as <-.
      apply IH in Hrest; [| simpl; rewrite length_insert; lia].
      destruct Hrest as [Hall ->]. simpl in Hall.
      rewrite drop_insert_lt in Hall by lia.
      split; [split; [exact Hok | exact Hall] |].
      unfold sweep_result; simpl.
      rewrite drop_insert_lt by lia. rewrite drop_insert_lt by lia.
      rewrite Htake, (drop_S _ _ _ Ha). simpl.
      rewrite <- !app_assoc. simpl.
      replace (a + S n)%nat with (S (a + n)) by lia. reflexivity.
    + intros [[Hok Hall] ->].
      exists tt, (mkRpc (sessions r) (session_vec r)
                   (<[a := refresh cur_tsc req]> (in_flight_vec r))
                   (udp_out r ++ retrans_dgrams cur_tsc (sessions r) req)).
      split; [apply retry_one_spec; eauto |].
      apply IH; [simpl; rewrite length_insert; lia |].
      simpl. rewrite drop_insert_lt by lia.
      split; [exact Hall |].
      unfold sweep_result; simpl.
      rewrite drop_insert_lt by lia. rewrite drop_insert_lt by lia.
      rewrite Htake, (drop_S _ _ _ Ha). simpl.
      rewrite <- !app_assoc. simpl.
      replace (a + S n)%nat with (S (a + n)) by lia. reflexivity.
Qed.

(** [retry_in_flight], in full: when it completes and what it leaves. *)
Lemma retry_in_flight_spec cur_tsc r r' :
  retry_in_flight cur_tsc r = Some (tt, r') <->
  in_flight_vec r <> [] /\
  Forall (entry_ok cur_tsc r) (in_flight_vec r) /\
  r' = mkRpc (sessions r) (session_vec r)
         (refresh cur_tsc <$> in_flight_vec r)
         (udp_out r ++
          flat_map (retrans_dgrams cur_tsc (sessions r)) (in_flight_vec r)).
Proof.
  unfold retry_in_flight. rewrite bind_Some. unfold gets at 1.
  assert (sweep_result cur_tsc 0 (length (in_flight_vec r)) r
          = mkRpc (sessions r) (session_vec r)
              (refresh cur_tsc <$> in_flight_vec r)
              (udp_out r ++
               flat_map (retrans_dgrams cur_tsc (sessions r)) (in_flight_vec r)))
    as Hres.
  { unfold sweep_result. simpl. rewrite drop_0, firstn_all.
    rewrite drop_all, app_nil_r. reflexivity. }
  split.
  - intros (n & r1 & [= <- <-] & Hrun).
    apply bind_Some in Hrun as ([] & r1 & Hne & Hrun).
    apply assert_Some in Hne as [Hne ->]. apply Z.ltb_lt in Hne.
    apply retry_loop_spec in Hrun; [| simpl; lia].
    destruct Hrun as [Hall ->]. rewrite drop_0, firstn_all in Hall.
    split; [| split; [exact Hall | exact Hres]].
    intros E. rewrite E in Hne. simpl in Hne. lia.
  - intros (Hne & Hall & ->).
    exists (length (in_flight_vec r)), r. split; [reflexivity |].
    apply bind_Some. exists tt, r. split.
    { apply assert_Some. split; [| reflexivity]. apply Z.ltb_lt.
      destruct (in_flight_vec r); [contradiction | simpl; lia]. }
    apply retry_loop_spec; [simpl; lia |].
    rewrite drop_0, firstn_all. split; [exact Hall | symmetry; exact Hres].
Qed.
End Sweep.

(** ** The in-flight list *)

Lemma is_in_flight_scan_spec sess v :
  is_in_flight_scan sess v = true <-> sess ∈ (session <$> v).
Proof.
  induction v as [|req v IH]; simpl.
  - split; [discriminate | intros Hin; inversion Hin].
  - rewrite elem_of_cons.
    destruct (bool_decide_reflect (session req = sess)) as [E|E].
    + split; auto.
    + rewrite IH. split; [auto | intros [E'|Hin]; [congruence | exact Hin]].
Qed.

Lemma assert_not_in_flight_spec sess v r r' :
  assert_not_in_flight sess v r = Some (tt, r') <->
  (sess ∉ (session <$> v)) /\ r' = r.
Proof.
  revert r'. induction v as [|req v IH]; intros r'; simpl.
  - unfold ret. split.
    + intros [= <-]. split; [intros Hin; inversion Hin | reflexivity].
    + intros [_ ->]. reflexivity.
  - rewrite bind_Some, not_elem_of_cons.
    destruct (bool_decide_reflect (session req = sess)) as [E|E].
    + split.
      * intros ([] & r1 & Hf & _). discriminate Hf.
      * intros [[Hne _] _]. congruence.
    + split.
      * intros ([] & r1 & [= <-] & Hrest). apply IH in Hrest as [Hnin ->].
        repeat split; auto.
      * intros [[_ Hnin] ->]. exists tt, r. split; [reflexivity |].
        apply IH. auto.
Qed.

Lemma add_to_in_flight_spec sess tsc r r' :
  add_to_in_flight sess tsc r = Some (tt, r') <->
  sess <> NULL /\ sess ∈ session_vec r /\
  (exists s, sessions r !! sess = Some s /\ Session.role s = Session.kClient) /\
  (sess ∉ (session <$> in_flight_vec r)) /\
  r' = set_in_flight_vec (in_flight_vec r ++ [mk_in_flight_req tsc sess]) r.
Proof.
  unfold add_to_in_flight. split.
  - intros Hrun.
    apply bind_Some in Hrun as ([] & r1 & Hnull & Hrun).
    apply assert_Some in Hnull as [Hnull ->].
    apply negb_true_iff, bool_decide_eq_false in Hnull.
    apply bind_Some in Hrun as (m & r1 & [= <- <-] & Hrun).
    apply bind_Some in Hrun as ([] & r1 & Hm & Hrun).
    apply assert_Some in Hm as [Hm ->]. apply bool_decide_eq_true in Hm.
    apply bind_Some in Hrun as (s & r1 & Hs & Hrun). unfold deref in Hs.
    destruct (sessions r !! sess) as [s'|] eqn:Hmem; [| discriminate].
    injection Hs as -> <-.
    apply bind_Some in Hrun as ([] & r1 & Hrole & Hrun).
    apply assert_Some in Hrole as [Hrole ->]. apply bool_decide_eq_true in Hrole.
    apply bind_Some in Hrun as (v & r1 & [= <- <-] & Hrun).
    apply bind_Some in Hrun as ([] & r1 & Hscan & Hrun).
    apply assert_not_in_flight_spec in Hscan as [Hnin ->].
    unfold modify in Hrun. injection Hrun as <-.
    repeat split; eauto.
  - intros (Hnull & Hm & (s & Hmem & Hrole) & Hnin & ->).
    apply bind_Some. exists tt, r. split.
    { apply assert_Some. split; [| reflexivity].
      apply negb_true_iff, bool_decide_eq_false, Hnull. }
    apply bind_Some. exists true, r. split.
    { unfold is_session_managed, gets. rewrite bool_decide_eq_true_2; auto. }
    apply bind_Some. exists tt, r. split; [reflexivity |].
    apply bind_Some. exists s, r. split; [unfold deref; rewrite Hmem; reflexivity |].
    apply bind_Some. exists tt, r. split.
    { apply assert_Some. split; [apply bool_decide_eq_true, Hrole | reflexivity]. }
    apply bind_Some. exists (in_flight_vec r), r. split; [reflexivity |].
    apply bind_Some. exists tt, r. split; [| reflexivity].
    apply assert_not_in_flight_spec. auto.
Qed.

Lemma is_in_flight_spec sess r :
  is_in_flight sess r
  = Some (bool_decide (sess ∈ (session <$> in_flight_vec r)), r).
Proof.
  unfold is_in_flight, bind, gets, ret. do 2 f_equal.
  destruct (is_in_flight_scan sess (in_flight_vec r)) eqn:E.
  - symmetry. apply bool_decide_eq_true, is_in_flight_scan_spec, E.
  - symmetry. apply bool_decide_eq_false. intros Hin.
    apply is_in_flight_scan_spec in Hin. congruence.
Qed.

Lemma remove_erase_cons sess req v :
  remove_erase (mk_in_flight_req 0 sess) (req :: v)
  = if bool_decide (session req = sess)
    then remove_erase (mk_in_flight_req 0 sess) v
    else req :: remove_erase (mk_in_flight_req 0 sess) v.
Proof.
  unfold remove_erase, in_flight_req_eqb. simpl.
  destruct (bool_decide (session req = sess)); reflexivity.
Qed.

Lemma remove_erase_absent sess v :
  sess ∉ (session <$> v) -> remove_erase (mk_in_flight_req 0 sess) v = v.
Proof.
  induction v as [|req v IH]; [reflexivity |].
  rewrite fmap_cons, not_elem_of_cons, remove_erase_cons. intros [Hne Hnin].
  rewrite bool_decide_eq_false_2 by congruence.
  f_equal. apply IH, Hnin.
Qed.

Lemma remove_erase_app d v1 v2 :
  remove_erase d (v1 ++ v2) = remove_erase d v1 ++ remove_erase d v2.
Proof. unfold remove_erase. apply List.filter_app. Qed.

Lemma remove_erase_sessions sess v :
  sess ∉ (session <$> remove_erase (mk_in_flight_req 0 sess) v).
Proof.
  induction v as [|req v IH]; [apply not_elem_of_nil |].
  rewrite remove_erase_cons.
  destruct (bool_decide_reflect (session req = sess)) as [E|E].
  - exact IH.
  - rewrite fmap_cons, not_elem_of_cons. auto.
Qed.

Lemma remove_erase_length sess v :
  (length (remove_erase (mk_in_flight_req 0 sess) v) <= length v)%nat.
Proof.
  induction v as [|req v IH]; [reflexivity |].
  rewrite remove_erase_cons.
  destruct (bool_decide (session req = sess)); simpl; lia.
Qed.

Lemma remove_erase_full sess v :
  length (remove_erase (mk_in_flight_req 0 sess) v) = length v ->
  remove_erase (mk_in_flight_req 0 sess) v = v.
Proof.
  induction v as [|req v IH]; [reflexivity |].
  rewrite remove_erase_cons.
  destruct (bool_decide (session req = sess)); simpl.
  - intros Hl. pose proof (remove_erase_length sess v). lia.
  - intros [= Hl]. f_equal. apply IH, Hl.
Qed.

(** When [std::remove] shortens the vector by one, it took out exactly one
    element, the one naming the session. *)
Lemma remove_erase_one sess v :
  (length (remove_erase (mk_in_flight_req 0 sess) v) + 1)%nat = length v ->
  exists l1 req l2,
    v = l1 ++ req :: l2 /\ session req = sess /\
    remove_erase (mk_in_flight_req 0 sess) v = l1 ++ l2.
Proof.
  induction v as [|req v IH]; [simpl; lia |].
  rewrite remove_erase_cons.
  destruct (bool_decide_reflect (session req = sess)) as [E|E]; simpl.
  - intros Hl. exists [], req, v. repeat split; auto.
    simpl. apply remove_erase_full. lia.
  - intros Hl. destruct IH as (l1 & x & l2 & Hv & Hx & Hrem); [lia |].
    exists (req :: l1), x, l2. rewrite Hrem. simpl. rewrite <- Hv. auto.
Qed.

Lemma remove_erase_NoDup_length sess v :
  NoDup (session <$> v) -> sess ∈ (session <$> v) ->
  (length (remove_erase (mk_in_flight_req 0 sess) v) + 1)%nat = length v.
Proof.
  induction v as [|req v IH].
  - intros _ Hin. inversion Hin.
  - rewrite fmap_cons, NoDup_cons, elem_of_cons, remove_erase_cons.
    intros [Hnin Hnd] Hin.
    destruct (bool_decide_reflect (session req = sess)) as [E|E]; simpl.
    + subst sess. rewrite (remove_erase_absent _ _ Hnin). lia.
    + destruct Hin as [Hin|Hin]; [congruence |].
      specialize (IH Hnd Hin). lia.
Qed.

Lemma remove_from_in_flight_spec sess r r' :
  remove_from_in_flight sess r = Some (tt, r') <->
  sess <> NULL /\ sess ∈ session_vec r /\
  sess ∈ (session <$> in_flight_vec r) /\
  (length (remove_erase (mk_in_flight_req 0 sess) (in_flight_vec r)) + 1)%nat
    = length (in_flight_vec r) /\
  r' = set_in_flight_vec
         (remove_erase (mk_in_flight_req 0 sess) (in_flight_vec r)) r.
Proof.
  unfold remove_from_in_flight. split.
  - intros Hrun.
    apply bind_Some in Hrun as ([] & r1 & Hnull & Hrun).
    apply assert_Some in Hnull as [Hnull ->].
    apply negb_true_iff, bool_decide_eq_false in Hnull.
    apply bind_Some in Hrun as (m & r1 & [= <- <-] & Hrun).
    apply bind_Some in Hrun as ([] & r1 & Hm & Hrun).
    apply assert_Some in Hm as [Hm ->]. apply bool_decide_eq_true in Hm.
    apply bind_Some in Hrun as (b & r1 & Hb & Hrun).
    rewrite is_in_flight_spec in Hb. injection Hb as <- <-.
    apply bind_Some in Hrun as ([] & r1 & Hin & Hrun).
    apply assert_Some in Hin as [Hin ->]. apply bool_decide_eq_true in Hin.
    apply bind_Some in Hrun as (n & r1 & [= <- <-] & Hrun).
    apply bind_Some in Hrun as ([] & r1 & [= <-] & Hrun).
    apply bind_Some in Hrun as (n' & r1 & [= <- <-] & Hrun).
    apply assert_Some in Hrun as [Hsz ->]. apply bool_decide_eq_true in Hsz.
    simpl in Hsz. repeat split; auto. lia.
  - intros (Hnull & Hm & Hin & Hsz & ->).
    apply bind_Some. exists tt, r. split.
    { apply assert_Some. split; [| reflexivity].
      apply negb_true_iff, bool_decide_eq_false, Hnull. }
    apply bind_Some. exists true, r. split.
    { unfold is_session_managed, gets. rewrite bool_decide_eq_true_2; auto. }
    apply bind_Some. exists tt, r. split; [reflexivity |].
    apply bind_Some. exists true, r. split.
    { rewrite is_in_flight_spec, bool_decide_eq_true_2; auto. }
    apply bind_Some. exists tt, r. split; [reflexivity |].
    apply bind_Some. exists (length (in_flight_vec r)), r.
    split; [reflexivity |].
    apply bind_Some. eexists tt, _. split; [reflexivity |].
    apply bind_Some. eexists _, _. split; [reflexivity |].
    apply assert_Some. split; [| reflexivity].
    apply bool_decide_eq_true. simpl. lia.
Qed.

(** ** The claims about [rpc_sm_retry.cc] *)

(** C7. For a managed client session in connect-in-progress or
    disconnect-wait-for-connect, [send_connect_req_one] completes, and all it
    does is hand one datagram to the management channel: a packet of kind
    connect-req whose client and server descriptors are those of the
    session, addressed to the hostname of the session's server. *)
Theorem send_connect_req_one_packet sess s r :
  sess <> NULL ->
  sess ∈ session_vec r ->
  sessions r !! sess = Some s ->
  Session.role s = Session.kClient ->
  Session.state s = kConnectInProgress \/
  Session.state s = kDisconnectWaitForConnect ->
  exists pkt,
    send_connect_req_one sess r
    = Some (tt, set_udp_out
                  (udp_out r ++ [(hostname (Session.server s), pkt)]) r) /\
    SessionMgmtPkt.pkt_type pkt = kConnectReq /\
    SessionMgmtPkt.client pkt = Session.client s /\
    SessionMgmtPkt.server pkt = Session.server s.
Proof.
  intros Hnull Hm Hmem Hrole Hst. exists (connect_req_of s).
  split; [| repeat split].
  apply send_connect_req_one_spec. repeat split; auto.
  exists s. repeat split; auto.
  unfold connect_state. destruct Hst as [-> | ->]; reflexivity.
Qed.

Lemma send_connect_req_one_packet_witness :
  exists pkt,
    send_connect_req_one 1%N sample_rpc
    = Some (tt, set_udp_out (udp_out sample_rpc ++ [("server-host", pkt)])
                  sample_rpc) /\
    SessionMgmtPkt.pkt_type pkt = kConnectReq /\
    SessionMgmtPkt.client pkt = host_a /\
    SessionMgmtPkt.server pkt = host_b.
Proof.
  apply (send_connect_req_one_packet 1%N connecting sample_rpc).
  - discriminate.
  - apply (bool_decide_unpack _). vm_compute. exact I.
  - vm_compute. reflexivity.
  - reflexivity.
  - left. reflexivity.
Defined.

Section SweepClaims.
Context `{Externals}.

(** C1. Take a sweep that completes and an entry of the in-flight list
    whose session is in connect-in-progress or
    disconnect-wait-for-connect.  The sweep reaches the entry unchanged;
    its iteration sends one connect-req for the session and sets the
    entry's timestamp to the current time when the elapsed time exceeds
    [kSessionMgmtRetransMs], and does nothing at all otherwise; the rest of
    the sweep leaves the entry as that iteration left it. *)
Theorem retry_in_flight_resends_connect_req cur_tsc r r' i req s :
  retry_in_flight cur_tsc r = Some (tt, r') ->
  in_flight_vec r !! i = Some req ->
  sessions r !! session req = Some s ->
  Session.state s = kConnectInProgress \/
  Session.state s = kDisconnectWaitForConnect ->
  exists r1 r2,
    for_each (retry_one cur_tsc) (seq 0 i) r = Some (tt, r1) /\
    retry_one cur_tsc i r1 = Some (tt, r2) /\
    for_each (retry_one cur_tsc)
      (seq (S i) (length (in_flight_vec r) - S i)) r2 = Some (tt, r') /\
    in_flight_vec r1 !! i = Some req /\
    (dgt (elapsed_ms cur_tsc (prev_tsc req)) kSessionMgmtRetransMs = true ->
       udp_out r2
       = udp_out r1 ++ [(hostname (Session.server s), connect_req_of s)] /\
       in_flight_vec r2
       = <[i := mk_in_flight_req cur_tsc (session req)]> (in_flight_vec r1) /\
       in_flight_vec r' !! i
       = Some (mk_in_flight_req cur_tsc (session req))) /\
    (dgt (elapsed_ms cur_tsc (prev_tsc req)) kSessionMgmtRetransMs = false ->
       r2 = r1 /\ in_flight_vec r' !! i = Some req).
Proof.
  intros Hrun Hi Hmem Hst.
  pose proof (lookup_lt_Some _ _ _ Hi) as Hlt.
  assert (connect_state (Session.state s) = true) as Hc.
  { unfold connect_state. destruct Hst as [-> | ->]; reflexivity. }
  pose proof Hrun as Hfull. apply retry_in_flight_spec in Hfull as (_ & _ & Hr').
  unfold retry_in_flight in Hrun.
  apply bind_Some in Hrun as (n & r0 & [= <- <-] & Hrun).
  apply bind_Some in Hrun as ([] & r0 & Hne & Hrun).
  apply assert_Some in Hne as [_ ->].
  replace (length (in_flight_vec r))
    with (i + S (length (in_flight_vec r) - S i))%nat in Hrun at 1 by lia.
  rewrite seq_app in Hrun. simpl in Hrun.
  apply for_each_app in Hrun as (r1 & Hpre & Hrun).
  simpl in Hrun. apply bind_Some in Hrun as ([] & r2 & Hone & Hpost).
  exists r1, r2. split; [exact Hpre |]. split; [exact Hone |].
  split; [exact Hpost |].
  apply retry_loop_spec in Hpre as [_ Hr1]; [| simpl; lia].
  assert (sessions r1 = sessions r) as Hs1 by (rewrite Hr1; reflexivity).
  assert (in_flight_vec r1 !! i = Some req) as Hi1.
  { rewrite Hr1. unfold sweep_result; simpl. rewrite drop_0.
    rewrite lookup_app_r; rewrite length_fmap, length_take, Nat.min_l by lia;
      [| lia].
    rewrite Nat.sub_diag, lookup_drop, Nat.add_0_r. exact Hi. }
  clear Hr1. split; [exact Hi1 |].
  apply retry_one_spec in Hone as (req' & Hi1' & _ & ->).
  rewrite Hi1 in Hi1'. injection Hi1' as <-.
  assert (in_flight_vec r' !! i = Some (refresh cur_tsc req)) as Hfin.
  { rewrite Hr'. simpl. rewrite list_lookup_fmap, Hi. reflexivity. }
  unfold refresh, retrans_dgrams, expired in *.
  rewrite Hs1, Hmem, Hc. cbn [in_flight_vec udp_out].
  split; intros Hexp; rewrite Hexp in *; cbn [andb].
  - auto.
  - split; [| exact Hfin].
    rewrite app_nil_r, (list_insert_id _ _ _ Hi1), <- Hs1.
    destruct r1; reflexivity.
Qed.

(** C3. A sweep that completes leaves the memory holding the sessions as
    it was, hence every session's state, role and descriptors, and the
    table of sessions too; the in-flight list keeps its length and, entry
    by entry, its session, and an entry's timestamp is either untouched or,
    for an expired entry, the current time.  The two functions the sweep
    calls write neither the sessions nor the in-flight list. *)
Theorem retry_in_flight_frame cur_tsc r r' :
  retry_in_flight cur_tsc r = Some (tt, r') ->
  sessions r' = sessions r /\
  session_vec r' = session_vec r /\
  length (in_flight_vec r') = length (in_flight_vec r) /\
  (forall i req, in_flight_vec r !! i = Some req ->
     in_flight_vec r' !! i
     = Some (mk_in_flight_req
               (if expired cur_tsc req then cur_tsc else prev_tsc req)
               (session req))) /\
  (forall sess r1 r2, send_connect_req_one sess r1 = Some (tt, r2) ->
     sessions r2 = sessions r1 /\ session_vec r2 = session_vec r1 /\
     in_flight_vec r2 = in_flight_vec r1) /\
  (forall sess r1, send_disconnect_req_one sess r1 = Some (tt, r1)).
Proof.
  intros Hrun. apply retry_in_flight_spec in Hrun as (_ & _ & ->). simpl.
  split; [reflexivity |]. split; [reflexivity |].
  split; [apply length_fmap |]. split; [| split].
  - intros i req Hi. rewrite list_lookup_fmap, Hi. simpl. f_equal.
    unfold refresh, set_prev_tsc. destruct (expired cur_tsc req), req; reflexivity.
  - intros sess r1 r2 Hsend.
    apply send_connect_req_one_spec in Hsend as (_ & _ & s & _ & _ & _ & ->).
    repeat split.
  - reflexivity.
Qed.

(** C10. On an in-flight list in which every session appears at most
    once: [add_to_in_flight] completes only for a session that is not in
    the list, and appends it; [remove_from_in_flight] completes for every
    managed session of the list, and when it completes it has taken out
    exactly one element, the one of that session, so the size has dropped
    by exactly 1; [is_in_flight] and the sweep change no session of the
    list.  After each of them every session still appears at most once. *)
Theorem in_flight_unique_preserved r :
  NoDup (session <$> in_flight_vec r) ->
  (forall sess tsc r', add_to_in_flight sess tsc r = Some (tt, r') ->
     (sess ∉ (session <$> in_flight_vec r)) /\
     in_flight_vec r' = in_flight_vec r ++ [mk_in_flight_req tsc sess] /\
     NoDup (session <$> in_flight_vec r')) /\
  (forall sess, sess <> NULL -> sess ∈ session_vec r ->
     sess ∈ (session <$> in_flight_vec r) ->
     exists r', remove_from_in_flight sess r = Some (tt, r')) /\
  (forall sess r', remove_from_in_flight sess r = Some (tt, r') ->
     (exists l1 req l2,
        in_flight_vec r = l1 ++ req :: l2 /\ session req = sess /\
        in_flight_vec r' = l1 ++ l2) /\
     (length (in_flight_vec r') + 1)%nat = length (in_flight_vec r) /\
     NoDup (session <$> in_flight_vec r')) /\
  (forall sess b r', is_in_flight sess r = Some (b, r') -> r' = r) /\
  (forall cur_tsc r', retry_in_flight cur_tsc r = Some (tt, r') ->
     session <$> in_flight_vec r' = session <$> in_flight_vec r /\
     NoDup (session <$> in_flight_vec r')).
Proof.
  intros Hnd. repeat split.
  - apply add_to_in_flight_spec in H0 as (_ & _ & _ & Hnin & _). exact Hnin.
  - apply add_to_in_flight_spec in H0 as (_ & _ & _ & _ & ->). reflexivity.
  - apply add_to_in_flight_spec in H0 as (_ & _ & _ & Hnin & ->). simpl.
    rewrite fmap_app. simpl. apply NoDup_app. repeat split; auto.
    + intros x Hx Hx'. apply list_elem_of_singleton in Hx'. subst x.
      contradiction.
    + apply NoDup_singleton.
  - intros sess Hnull Hm Hin. eexists. apply remove_from_in_flight_spec.
    repeat split; auto. apply remove_erase_NoDup_length; auto.
  - apply remove_from_in_flight_spec in H0 as (_ & _ & _ & Hsz & ->). simpl.
    apply remove_erase_one, Hsz.
  - apply remove_from_in_flight_spec in H0 as (_ & _ & _ & Hsz & ->). simpl.
    exact Hsz.
  - apply remove_from_in_flight_spec in H0 as (_ & _ & _ & Hsz & ->). simpl.
    destruct (remove_erase_one _ _ Hsz) as (l1 & req & l2 & Hv & _ & ->).
    rewrite Hv, fmap_app, fmap_cons in Hnd. rewrite fmap_app.
    apply NoDup_app in Hnd as (Hn1 & Hdisj & Hn2).
    apply NoDup_cons in Hn2 as [_ Hn2].
    apply NoDup_app. repeat split; auto.
    intros x Hx Hx'. apply (Hdisj x Hx). apply elem_of_cons. auto.
  - intros sess b r' Hrun. rewrite is_in_flight_spec in Hrun. congruence.
  - apply retry_in_flight_spec in H0 as (_ & _ & ->). simpl.
    rewrite <- list_fmap_compose. apply list_fmap_ext. intros i req _. simpl.
    unfold refresh. destruct (expired cur_tsc req); reflexivity.
  - apply retry_in_flight_spec in H0 as (_ & _ & ->). simpl.
    rewrite <- list_fmap_compose.
    erewrite list_fmap_ext; [exact Hnd |]. intros i req _. simpl.
    unfold refresh. destruct (expired cur_tsc req); reflexivity.
Qed.
End SweepClaims.

Lemma sample_sweep :
  retry_in_flight (H := ideal_externals) sample_later sample_rpc
  = Some (tt, sample_rpc_swept).
Proof. vm_compute. reflexivity. Defined.

Lemma retry_in_flight_resends_connect_req_witness :
  exists r1 r2,
    retry_one (H := ideal_externals) sample_later 0 r1 = Some (tt, r2) /\
    udp_out r2 = udp_out r1 ++ [("server-host", connect_req_of connecting)] /\
    in_flight_vec sample_rpc_swept !! 0%nat
    = Some (mk_in_flight_req sample_later 1%N).
Proof.
  destruct (retry_in_flight_resends_connect_req (H := ideal_externals)
              sample_later sample_rpc sample_rpc_swept 0
              (mk_in_flight_req 100 1%N) connecting)
    as (r1 & r2 & _ & Hone & _ & _ & Hexp & _).
  - exact sample_sweep.
  - reflexivity.
  - vm_compute. reflexivity.
  - left. reflexivity.
  - exists r1, r2. split; [exact Hone |].
    destruct Hexp as (Hout & _ & Hfin); [vm_compute; reflexivity |].
    split; [exact Hout | exact Hfin].
Defined.

Lemma retry_in_flight_frame_witness :
  sessions sample_rpc_swept = sessions sample_rpc /\
  session_vec sample_rpc_swept = session_vec sample_rpc /\
  length (in_flight_vec sample_rpc_swept) = length (in_flight_vec sample_rpc).
Proof.
  destruct (retry_in_flight_frame (H := ideal_externals)
              sample_later sample_rpc sample_rpc_swept sample_sweep)
    as (Hs & Hv & Hl & _).
  auto.
Defined.

Lemma sample_rpc_unique : NoDup (session <$> in_flight_vec sample_rpc).
Proof. apply (bool_decide_unpack _). vm_compute. exact I. Defined.

Lemma in_flight_unique_preserved_witness :
  NoDup (session <$> in_flight_vec sample_rpc_swept) /\
  exists r', remove_from_in_flight 2%N sample_rpc = Some (tt, r').
Proof.
  destruct (in_flight_unique_preserved (H := ideal_externals)
              sample_rpc sample_rpc_unique)
    as (_ & Hrem & _ & _ & Hsweep).
  split.
  - apply (Hsweep sample_later sample_rpc_swept sample_sweep).
  - apply Hrem.
    + discriminate.
    + apply (bool_decide_unpack _). vm_compute. exact I.
    + apply (bool_decide_unpack _). vm_compute. exact I.
Defined.

(** C4. When the session is managed, of client role and not in the in-flight
    list, [add_to_in_flight] completes and [is_in_flight] then answers true;
    a following [remove_from_in_flight] completes and gives back the endpoint
    as it was, in-flight list included, on which [is_in_flight] answers
    false. *)
Theorem add_then_remove_in_flight sess tsc s r :
  sess <> NULL ->
  sess ∈ session_vec r ->
  sessions r !! sess = Some s ->
  Session.role s = Session.kClient ->
  sess ∉ (session <$> in_flight_vec r) ->
  exists r1,
    add_to_in_flight sess tsc r = Some (tt, r1) /\
    in_flight_vec r1 = in_flight_vec r ++ [mk_in_flight_req tsc sess] /\
    is_in_flight sess r1 = Some (true, r1) /\
    remove_from_in_flight sess r1 = Some (tt, r) /\
    is_in_flight sess r = Some (false, r).
Proof.
  intros Hnull Hm Hmem Hrole Hnin.
  set (r1 := set_in_flight_vec
               (in_flight_vec r ++ [mk_in_flight_req tsc sess]) r).
  assert (sess ∈ (session <$> in_flight_vec r1)) as Hin.
  { unfold r1; simpl. rewrite fmap_app, elem_of_app. right.
    simpl. apply list_elem_of_singleton. reflexivity. }
  assert (remove_erase (mk_in_flight_req 0 sess) (in_flight_vec r1)
          = in_flight_vec r) as Hrem.
  { unfold r1; simpl. rewrite remove_erase_app, (remove_erase_absent _ _ Hnin).
    rewrite remove_erase_cons, bool_decide_eq_true_2 by reflexivity.
    apply app_nil_r. }
  exists r1. split; [| split; [reflexivity |]; split; [| split]].
  - apply add_to_in_flight_spec. repeat split; eauto.
  - rewrite is_in_flight_spec, bool_decide_eq_true_2; auto.
  - apply remove_from_in_flight_spec. rewrite Hrem. repeat split; auto.
    + unfold r1; simpl. rewrite length_app. reflexivity.
    + unfold r1, set_in_flight_vec; simpl. destruct r; reflexivity.
  - rewrite is_in_flight_spec, bool_decide_eq_false_2; auto.
Qed.

Lemma add_then_remove_in_flight_witness :
  exists r1,
    add_to_in_flight 1%N 100 sample_rpc_idle = Some (tt, r1) /\
    in_flight_vec r1 = [mk_in_flight_req 100 1%N] /\
    is_in_flight 1%N r1 = Some (true, r1) /\
    remove_from_in_flight 1%N r1 = Some (tt, sample_rpc_idle) /\
    is_in_flight 1%N sample_rpc_idle = Some (false, sample_rpc_idle).
Proof.
  apply (add_then_remove_in_flight 1%N 100 connecting sample_rpc_idle).
  - discriminate.
  - apply (bool_decide_unpack _). vm_compute. exact I.
  - vm_compute. reflexivity.
  - reflexivity.
  - apply (bool_decide_unpack _). vm_compute. exact I.
Defined.

(** An expired entry whose session is in disconnect-in-progress: its
    iteration hands nothing to the management channel. *)
Lemma retry_one_disconnect_silent `{Externals} cur_tsc i r r' req s :
  retry_one cur_tsc i r = Some (tt, r') ->
  in_flight_vec r !! i = Some req ->
  sessions r !! session req = Some s ->
  Session.state s = kDisconnectInProgress ->
  udp_out r' = udp_out r /\
  in_flight_vec r' = <[i := refresh cur_tsc req]> (in_flight_vec r).
Proof.
  intros Hone Hi Hmem Hst.
  apply retry_one_spec in Hone as (req' & Hi' & _ & ->).
  rewrite Hi in Hi'. injection Hi' as <-. simpl.
  unfold retrans_dgrams, connect_state. rewrite Hmem, Hst. simpl.
  rewrite andb_false_r, app_nil_r. auto.
Qed.

(** C2, on the code.  The only entry of the in-flight list is for a session
    in disconnect-in-progress and 10 ms have passed against a threshold of
    5 ms: the sweep completes, stamps the entry with the current time, and
    sends nothing, no disconnect-req or any other datagram. *)
Theorem retry_in_flight_disconnect_sends_nothing :
  expired (H := ideal_externals) sample_later (mk_in_flight_req 100 2%N) = true /\
  sessions sample_rpc_disconnecting !! 2%N = Some disconnecting /\
  retry_in_flight (H := ideal_externals) sample_later sample_rpc_disconnecting
  = Some (tt, mkRpc (sessions sample_rpc_disconnecting)
                    (session_vec sample_rpc_disconnecting)
                    [mk_in_flight_req sample_later 2%N] []).
Proof. repeat split; vm_compute; reflexivity. Qed.

End SmRetryFacts.

(* ===================================================================== *)
(** * Facts about the transmit loop of the rate test *)
(* ===================================================================== *)

Section WheelFacts.
Import TimingWheelTest.

Variable num_wslots : nat.
Variable wslot_width_tsc : Z.
Variable kSessionCredits : nat.

Hypothesis some_wslot : (0 < num_wslots)%nat.

Local Abbreviation wslot_of := (wslot_of num_wslots wslot_width_tsc).
Local Abbreviation insert := (insert num_wslots wslot_width_tsc).
Local Abbreviation advance := (advance wslot_width_tsc).
Local Abbreviation reap_loop := (reap_loop wslot_width_tsc).
Local Abbreviation reap := (reap wslot_width_tsc).
Local Abbreviation send_window := (send_window num_wslots wslot_width_tsc).
Local Abbreviation send_more := (send_more num_wslots wslot_width_tsc).
Local Abbreviation while_body := (while_body num_wslots wslot_width_tsc).
Local Abbreviation step := (step num_wslots wslot_width_tsc kSessionCredits).
Local Abbreviation reachable := (reachable num_wslots wslot_width_tsc kSessionCredits).
Local Abbreviation test_inv := (test_inv num_wslots kSessionCredits).

Local Abbreviation wheel_wf := (wheel_wf num_wslots).

Lemma wslot_of_lt tw desired_tsc : (wslot_of tw desired_tsc < num_wslots)%nat.
Proof.
  unfold TimingWheelTest.wslot_of.
  destruct (desired_tsc <? base_tsc tw + wslot_width_tsc); lia.
Qed.

Lemma concat_alter_snoc {A} (e : A) (l : list (list A)) i :
  (i < length l)%nat ->
  length (concat (alter (fun bkt => bkt ++ [e]) i l)) = S (length (concat l)).
Proof.
  unfold alter. revert i.
  induction l as [|bkt l IH]; intros [|i] Hi; simpl in *; try lia.
  - rewrite !length_app. simpl. lia.
  - rewrite !length_app, IH by lia. lia.
Qed.

Lemma insert_spec ent desired_tsc tw :
  wheel_wf tw ->
  wheel_wf (insert ent desired_tsc tw) /\
  wheel_count (insert ent desired_tsc tw) = S (wheel_count tw) /\
  ready_queue (insert ent desired_tsc tw) = ready_queue tw.
Proof.
  unfold TimingWheelTest.wheel_wf, wheel_count. intros Hwf. simpl.
  rewrite length_alter. repeat split; auto.
  apply concat_alter_snoc. rewrite Hwf. apply wslot_of_lt.
Qed.

Lemma advance_spec tw :
  wheel_wf tw ->
  wheel_wf (advance tw) /\
  (wheel_count (advance tw) + length (ready_queue (advance tw)))%nat
  = (wheel_count tw + length (ready_queue tw))%nat.
Proof.
  unfold TimingWheelTest.wheel_wf, wheel_count, TimingWheelTest.advance. intros Hwf.
  destruct (wheel tw) as [|bkt rest]; simpl in *.
  - auto.
  - rewrite concat_app, !length_app. simpl. lia.
Qed.

Lemma reap_loop_spec now_tsc fuel : forall tw tw',
  wheel_wf tw ->
  reap_loop fuel now_tsc tw = Some tw' ->
  wheel_wf tw' /\
  (wheel_count tw' + length (ready_queue tw'))%nat
  = (wheel_count tw + length (ready_queue tw))%nat.
Proof.
  induction fuel as [|fuel IH]; intros tw tw' Hwf; simpl; [discriminate |].
  destruct (base_tsc tw + wslot_width_tsc <=? now_tsc).
  - intros Hrun. destruct (advance_spec tw Hwf) as [Hwf' Hcnt].
    destruct (IH _ _ Hwf' Hrun) as [Hwf'' Hcnt']. split; [exact Hwf'' | lia].
  - intros [= <-]. auto.
Qed.

Lemma base_tsc_advance tw : base_tsc (advance tw) = base_tsc tw + wslot_width_tsc.
Proof. unfold TimingWheelTest.advance. destruct (wheel tw); reflexivity. Qed.

Lemma reap_loop_total now_tsc fuel : forall tw,
  0 < wslot_width_tsc ->
  (Z.to_nat ((now_tsc - base_tsc tw) / wslot_width_tsc) < fuel)%nat ->
  exists tw', reap_loop fuel now_tsc tw = Some tw'.
Proof.
  induction fuel as [|fuel IH]; intros tw Hw Hfuel; simpl; [lia |].
  destruct (Z.leb_spec (base_tsc tw + wslot_width_tsc) now_tsc) as [Hle|Hgt].
  - apply IH; [exact Hw |]. rewrite base_tsc_advance.
    replace (now_tsc - (base_tsc tw + wslot_width_tsc))
      with (now_tsc - base_tsc tw + (-1) * wslot_width_tsc) by lia.
    rewrite Z.div_add by lia.
    assert (1 <= (now_tsc - base_tsc tw) / wslot_width_tsc).
    { apply Z.div_le_lower_bound; lia. }
    lia.
  - eauto.
Qed.

Lemma reap_total now_tsc tw :
  0 < wslot_width_tsc -> exists tw', reap now_tsc tw = Some tw'.
Proof. intros Hw. apply reap_loop_total; [exact Hw | lia]. Qed.

Lemma send_window_spec cycles_per_pkt n : forall tw last tw' last',
  wheel_wf tw ->
  send_window n cycles_per_pkt tw last = (tw', last') ->
  wheel_wf tw' /\
  wheel_count tw' = (wheel_count tw + n)%nat /\
  ready_queue tw' = ready_queue tw.
Proof.
  induction n as [|n IH]; intros tw last tw' last' Hwf; simpl.
  - intros [= <- <-]. repeat split; auto.
  - intros Hrun. destruct (insert_spec dummy_ent last tw Hwf) as (Hwf1 & Hc1 & Hq1).
    destruct (IH _ _ _ _ Hwf1 Hrun) as (Hwf' & Hc' & Hq').
    repeat split; [exact Hwf' | lia | congruence].
Qed.

Lemma send_more_spec cycles_per_pkt n : forall tw last,
  wheel_wf tw ->
  (n <= length (ready_queue tw))%nat ->
  exists tw' last',
    send_more n cycles_per_pkt tw last = Some (tw', last') /\
    wheel_wf tw' /\
    wheel_count tw' = (wheel_count tw + n)%nat /\
    (length (ready_queue tw') + n)%nat = length (ready_queue tw).
Proof.
  induction n as [|n IH]; intros tw last Hwf Hn; simpl.
  - exists tw, last. repeat split; auto.
  - destruct (insert_spec dummy_ent last tw Hwf) as (Hwf1 & Hc1 & Hq1).
    unfold pop. simpl. destruct (ready_queue tw) as [|e q] eqn:Hq; simpl in Hn; [lia |].
    set (tw1 := mkTimingWheel _ _ q).
    destruct (IH tw1 (wrap64 (last + cycles_per_pkt)))
      as (tw' & last' & Hrun & Hwf' & Hc' & Hq'); [exact Hwf1 | simpl; lia |].
    exists tw', last'. split; [exact Hrun |]. split; [exact Hwf' |].
    unfold wheel_count in *. simpl in *. split; lia.
Qed.

(** One iteration of the transmit loop, started with an empty ready queue:
    it completes, and it inserts as many entries as it pops. *)
Lemma while_body_spec now_tsc cycles_per_pkt t :
  0 < wslot_width_tsc ->
  wheel_wf (the_wheel t) ->
  ready_queue (the_wheel t) = [] ->
  exists tw num_ready t',
    reap now_tsc (the_wheel t) = Some tw /\
    num_ready = length (ready_queue tw) /\
    while_body now_tsc cycles_per_pkt t = Some (num_ready, t') /\
    wheel_wf (the_wheel t') /\
    (wheel_count tw + num_ready)%nat = wheel_count (the_wheel t) /\
    wheel_count (the_wheel t') = (wheel_count tw + num_ready)%nat /\
    (length (ready_queue (the_wheel t')) + num_ready)%nat
    = length (ready_queue tw).
Proof.
  intros Hw Hwf Hq.
  destruct (reap_total now_tsc (the_wheel t) Hw) as [tw Hreap].
  destruct (reap_loop_spec _ _ _ _ Hwf Hreap) as [Hwf1 Hcnt].
  rewrite Hq in Hcnt. simpl in Hcnt.
  unfold TimingWheelTest.while_body. rewrite Hreap.
  exists tw, (length (ready_queue tw)).
  destruct (Z.ltb_spec 0 (Z.of_nat (length (ready_queue tw)))) as [Hpos|Hzero].
  - destruct (send_more_spec cycles_per_pkt (length (ready_queue tw)) tw
                (last_tsc t) Hwf1) as (tw' & last' & Hrun & Hwf' & Hc' & Hq');
      [lia |].
    rewrite Hrun. eexists. repeat split; simpl; auto; lia.
  - eexists. repeat split; simpl; auto; lia.
Qed.

Lemma test_inv_reachable start_tsc last c :
  reachable start_tsc last c -> test_inv c.
Proof.
  induction 1 as [|c c' Hreach IH Hstep].
  - unfold TimingWheelTest.test_inv, initial, wheel_count; simpl.
    rewrite length_replicate. repeat split.
    clear. induction num_wslots; simpl; auto.
  - destruct Hstep as [iters t cyc tsc tw last' Hit Hsend
                      | iters t cyc now_tsc k t' Hlt Hbody
                      | iters t cyc Hge
                      | iters t Hit];
      unfold TimingWheelTest.test_inv in *; simpl in *.
    + destruct IH as [Hwf IH].
      destruct (send_window_spec _ _ _ _ _ _ Hwf Hsend) as (Hwf' & Hc & Hq).
      split; [exact Hwf' |]. destruct iters as [|iters]; [| exact IH].
      destruct IH as [Hc0 Hq0]. split; [lia | congruence].
    + destruct IH as [Hwf IH]. destruct iters as [|iters].
      * destruct IH as [Hc0 Hq0]. unfold TimingWheelTest.while_body in Hbody.
        destruct (TimingWheelTest.reap _ now_tsc (the_wheel t)) as [tw|] eqn:Hreap;
          [| discriminate].
        destruct (reap_loop_spec _ _ _ _ Hwf Hreap) as [Hwf1 Hcnt].
        rewrite Hq0 in Hcnt. simpl in Hcnt.
        destruct (Z.ltb_spec 0 (Z.of_nat (length (ready_queue tw)))) as [Hpos|Hz].
        -- destruct (send_more_spec cyc (length (ready_queue tw)) tw
                       (last_tsc t) Hwf1)
             as (tw' & last' & Hrun & Hwf' & Hc' & Hq'); [lia |].
           rewrite Hrun in Hbody. injection Hbody as <- <-. simpl.
           split; [exact Hwf' |]. split; [lia |].
           destruct (ready_queue tw'); [reflexivity | simpl in Hq'; lia].
        -- injection Hbody as <- <-. simpl. split; [exact Hwf1 |].
           split; [lia |].
           destruct (ready_queue tw); [reflexivity | simpl in Hz; lia].
      * lia.
    + destruct IH as [Hwf _]. split; [exact Hwf | lia].
    + destruct IH as [Hwf _]. split; [exact Hwf | exact I].
Qed.

(** C5. Wherever the test stands at the head of its transmit loop with
    packets left to send, the next iteration completes, whatever the clock
    reads: it reaps, finds [num_ready] ready entries, at most
    [kSessionCredits] of them, inserts [num_ready] entries and pops
    [num_ready] entries; after it the wheel and the ready queue together
    hold [kSessionCredits] entries. *)
Theorem rate_test_window_conserved start_tsc last iters cycles_per_pkt t now_tsc :
  0 < wslot_width_tsc ->
  reachable start_tsc last (AtWhile iters cycles_per_pkt, t) ->
  num_pkts_sent t < num_pkts ->
  exists tw num_ready t',
    reap now_tsc (the_wheel t) = Some tw /\
    num_ready = length (ready_queue tw) /\
    while_body now_tsc cycles_per_pkt t = Some (num_ready, t') /\
    (num_ready <= kSessionCredits)%nat /\
    wheel_count (the_wheel t') = (wheel_count tw + num_ready)%nat /\
    (length (ready_queue (the_wheel t')) + num_ready)%nat
    = length (ready_queue tw) /\
    (wheel_count (the_wheel t') + length (ready_queue (the_wheel t')))%nat
    = kSessionCredits.
Proof.
  intros Hw Hreach Hlt.
  apply test_inv_reachable in Hreach as [Hwf Hinv]. simpl in Hwf, Hinv.
  destruct iters as [|iters]; [| lia]. destruct Hinv as [Hc Hq].
  destruct (while_body_spec now_tsc cycles_per_pkt t Hw Hwf Hq)
    as (tw & k & t' & Hreap & Hk & Hbody & _ & Hc1 & Hc2 & Hq2).
  exists tw, k, t'. repeat split; auto; lia.
Qed.

End WheelFacts.

Lemma sample_test_reachable :
  TimingWheelTest.reachable 4 10 2 0 0 (TimingWheelTest.AtWhile 0 15,
                                          TimingWheelTest.sample_test).
Proof.
  eapply TimingWheelTest.reachable_step;
    [apply TimingWheelTest.reachable_initial |].
  unfold TimingWheelTest.initial, TimingWheelTest.sample_test.
  apply (TimingWheelTest.step_window 4 10 2 0
           (TimingWheelTest.mkRateTest (TimingWheelTest.TimingWheel_new 4 0) 0 0)
           15 5); [lia |].
  apply surjective_pairing.
Defined.

Lemma rate_test_window_conserved_witness :
  exists num_ready t',
    TimingWheelTest.while_body 4 10 25 15 TimingWheelTest.sample_test
    = Some (num_ready, t') /\
    (num_ready <= 2)%nat /\
    (TimingWheelTest.wheel_count (TimingWheelTest.the_wheel t') +
     length (TimingWheelTest.ready_queue (TimingWheelTest.the_wheel t')))%nat
    = 2%nat.
Proof.
  destruct (rate_test_window_conserved 4 10 2 (Nat.lt_0_succ 3) 0 0 0 15
              TimingWheelTest.sample_test 25)
    as (tw & k & t' & _ & _ & Hbody & Hk & _ & _ & Hsum).
  - lia.
  - exact sample_test_reachable.
  - vm_compute. reflexivity.
  - exists k, t'. auto.
Defined.

(* ===================================================================== *)
(** * Facts about the nested-request test *)
(* ===================================================================== *)

Section ReqInReqFacts.
Import ReqInReq.

(** ** Tags *)

Lemma le_bytes_length n : forall v, length (le_bytes n v) = n.
Proof. induction n as [|n IH]; intros v; simpl; [| rewrite IH]; reflexivity. Qed.

Lemma le_bytes_is_byte n : forall v, Forall is_byte (le_bytes n v).
Proof.
  induction n as [|n IH]; intros v; simpl; constructor; [| apply IH].
  unfold is_byte. apply Z.mod_pos_bound. lia.
Qed.

Lemma le_value_bound bs :
  Forall is_byte bs -> 0 <= le_value bs < 256 ^ Z.of_nat (length bs).
Proof.
  induction 1 as [|b bs Hb _ IH]; simpl length; [simpl; lia |].
  rewrite Nat2Z.inj_succ, Z.pow_succ_r by lia.
  unfold is_byte in Hb. cbn [le_value]. lia.
Qed.

Lemma le_value_le_bytes n : forall v,
  0 <= v < 256 ^ Z.of_nat n -> le_value (le_bytes n v) = v.
Proof.
  induction n as [|n IH]; intros v Hv.
  - simpl in *. lia.
  - rewrite Nat2Z.inj_succ, Z.pow_succ_r in Hv by lia.
    cbn [le_bytes le_value]. rewrite IH.
    + pose proof (Z.div_mod v 256). lia.
    + split; [apply Z.div_pos; lia | apply Z.div_lt_upper_bound; lia].
Qed.

Lemma le_bytes_le_value bs :
  Forall is_byte bs -> le_bytes (length bs) (le_value bs) = bs.
Proof.
  induction 1 as [|b bs Hb _ IH]; [reflexivity |].
  unfold is_byte in Hb. cbn [length le_bytes le_value]. f_equal.
  - rewrite (Z.mul_comm 256), Z.mod_add by lia. apply Z.mod_small, Hb.
  - rewrite (Z.mul_comm 256), Z.div_add by lia.
    rewrite (Z.div_small b) by lia. exact IH.
Qed.

Lemma store_length o n v : length (store o n v) = n.
Proof.
  destruct o; simpl; [| rewrite List.length_rev]; apply le_bytes_length.
Qed.

Lemma store_is_byte o n v : Forall is_byte (store o n v).
Proof.
  destruct o; simpl; [| apply List.Forall_rev]; apply le_bytes_is_byte.
Qed.

Lemma load_store o n v : 0 <= v < 256 ^ Z.of_nat n -> load o (store o n v) = v.
Proof.
  intros Hv. destruct o; simpl; [| rewrite rev_involutive];
    apply le_value_le_bytes, Hv.
Qed.

Lemma store_load o bs :
  Forall is_byte bs -> store o (length bs) (load o bs) = bs.
Proof.
  intros Hbs. destruct o; simpl.
  - apply le_bytes_le_value, Hbs.
  - rewrite <- (List.length_rev bs), le_bytes_le_value.
    + apply rev_involutive.
    + apply List.Forall_rev, Hbs.
Qed.

Lemma load_bound o bs :
  Forall is_byte bs -> 0 <= load o bs < 256 ^ Z.of_nat (length bs).
Proof.
  intros Hbs. destruct o; simpl.
  - apply le_value_bound, Hbs.
  - rewrite <- (List.length_rev bs). apply le_value_bound, List.Forall_rev, Hbs.
Qed.

(** C8. A tag built from [req_i], [msgbuf_i] and [req_size] fills the eight
    bytes of a [size_t]; the word read from it lies in the range of
    [size_t], and a tag rebuilt from that word is the same eight bytes, from
    which the three members read back as they were written.  This holds
    for either byte order. *)
Theorem tag_round_trip o req_i msgbuf_i req_size :
  0 <= req_i < 2 ^ 16 ->
  0 <= msgbuf_i < 2 ^ 16 ->
  0 <= req_size < 2 ^ 32 ->
  let t := tag_of_fields o req_i msgbuf_i req_size in
  let word := tag_word o t in
  let t' := tag_of_word o word in
  length t = 8%nat /\
  0 <= word < 2 ^ 64 /\
  t' = t /\
  tag_req_i o t' = req_i /\
  tag_msgbuf_i o t' = msgbuf_i /\
  tag_req_size o t' = req_size.
Proof.
  intros Hi Hm Hs t word t'.
  assert (length t = 8%nat) as Hlen.
  { unfold t, tag_of_fields. rewrite !length_app, !store_length. reflexivity. }
  assert (Forall is_byte t) as Hbytes.
  { unfold t, tag_of_fields. rewrite !Forall_app.
    repeat split; apply store_is_byte. }
  assert (take 8 t = t) as Htake by (apply take_ge; lia).
  assert (t' = t) as Ht'.
  { unfold t', tag_of_word, word, tag_word. rewrite Htake, <- Hlen.
    apply store_load, Hbytes. }
  split; [exact Hlen |]. split.
  { unfold word, tag_word. rewrite Htake.
    pose proof (load_bound o t Hbytes) as Hb. rewrite Hlen in Hb.
    change (256 ^ Z.of_nat 8) with (2 ^ 64) in Hb. exact Hb. }
  split; [exact Ht' |]. rewrite Ht'.
  unfold tag_req_i, tag_msgbuf_i, tag_req_size, t, tag_of_fields.
  repeat split.
  - rewrite take_app_length' by (rewrite store_length; reflexivity).
    apply load_store. exact Hi.
  - rewrite drop_app_length' by (rewrite store_length; reflexivity).
    rewrite take_app_length' by (rewrite store_length; reflexivity).
    apply load_store. exact Hm.
  - rewrite app_assoc.
    rewrite drop_app_length'
      by (rewrite length_app, !store_length; reflexivity).
    rewrite take_ge by (rewrite store_length; lia).
    apply load_store. exact Hs.
Qed.

Lemma tag_round_trip_witness :
  tag_word LittleEndian (tag_of_fields LittleEndian 29 7 4096) = 17592186503197 /\
  tag_req_i LittleEndian (tag_of_word LittleEndian 17592186503197) = 29 /\
  tag_msgbuf_i LittleEndian (tag_of_word LittleEndian 17592186503197) = 7 /\
  tag_req_size LittleEndian (tag_of_word LittleEndian 17592186503197) = 4096.
Proof.
  destruct (tag_round_trip LittleEndian 29 7 4096)
    as (_ & _ & _ & H1 & H2 & H3); [lia | lia | lia |].
  split; [vm_compute; reflexivity |]. split; [| split].
  - exact H1.
  - exact H2.
  - exact H3.
Defined.

(** ** Random sizes *)

(** C9. When [kMaxMsgSize] is at least 2, [get_rand_msg_size] returns, for
    every sample, a size that is at least 1 and less than [kMaxMsgSize]; a
    sample that [kMaxMsgSize] divides gives 1. *)
Theorem get_rand_msg_size_range kMaxMsgSize sample :
  1 < kMaxMsgSize ->
  exists msg_size,
    get_rand_msg_size kMaxMsgSize sample = Some msg_size /\
    1 <= msg_size < kMaxMsgSize /\
    (sample mod kMaxMsgSize = 0 -> msg_size = 1).
Proof.
  intros Hk. unfold get_rand_msg_size, wrap32.
  destruct (Z.eqb_spec kMaxMsgSize 0) as [E|_]; [lia |].
  pose proof (Z.mod_pos_bound sample kMaxMsgSize ltac:(lia)) as Hr.
  pose proof (Z.mod_pos_bound (sample mod kMaxMsgSize) (2 ^ 32) ltac:(lia)) as Hw.
  pose proof (Z.mod_le (sample mod kMaxMsgSize) (2 ^ 32) ltac:(lia) ltac:(lia))
    as Hle.
  eexists. split; [reflexivity |].
  destruct (Z.eqb_spec ((sample mod kMaxMsgSize) mod 2 ^ 32) 0) as [E|E].
  - split; [lia | reflexivity].
  - split; [lia |]. intros Hz. rewrite Hz in E. contradiction.
Qed.

Lemma get_rand_msg_size_range_witness :
  exists msg_size,
    get_rand_msg_size 8388608 4026531840 = Some msg_size /\
    1 <= msg_size < 8388608 /\
    (4026531840 mod 8388608 = 0 -> msg_size = 1).
Proof. apply (get_rand_msg_size_range 8388608 4026531840). lia. Defined.

(** ** The byte transformations *)

Lemma take_S_insert {A} (l : list A) i x :
  (i < length l)%nat -> take (S i) (<[i := x]> l) = take i l ++ [x].
Proof.
  revert i. induction l as [|y l IH]; intros [|i] Hi; simpl in *; try lia.
  - rewrite take_0. reflexivity.
  - f_equal. apply IH. lia.
Qed.

(** The copying loop over [i, i+n): those bytes of [dst] become the bytes of
    [src] plus one, the others stay. *)
Lemma plus_one_from src n : forall i dst,
  (i + n <= length src)%nat ->
  length dst = length src ->
  for_loop (fun i dst => b ← src !! i; store_byte i (b + 1) dst) i n dst
  = Some (take i dst ++ (plus_one <$> take n (drop i src)) ++ drop (i + n) dst).
Proof.
  induction n as [|n IH]; intros i dst Hi Hlen.
  - simpl. rewrite Nat.add_0_r, take_drop. reflexivity.
  - destruct (lookup_lt_is_Some_2 src i) as [b Hb]; [lia |].
    cbn [for_loop]. rewrite Hb. cbn [mbind option_bind]. unfold store_byte.
    rewrite bool_decide_eq_true_2 by lia.
    rewrite IH by (rewrite ?length_insert; lia).
    rewrite take_S_insert by lia.
    rewrite drop_insert_lt by lia.
    rewrite (drop_S _ _ _ Hb). simpl.
    rewrite <- app_assoc. simpl.
    replace (i + S n)%nat with (S (i + n)) by lia. reflexivity.
Qed.

Lemma plus_one_loop_spec src dst :
  length dst = length src ->
  plus_one_loop src (length src) dst = Some (plus_one <$> src).
Proof.
  intros Hlen. unfold plus_one_loop. rewrite plus_one_from by (simpl; lia).
  rewrite take_0, drop_0, (take_ge src) by lia. simpl.
  rewrite drop_ge by lia. rewrite app_nil_r. reflexivity.
Qed.

(** The checking loop of [server_cont_func] passes exactly when no byte
    wraps around. *)
Lemma check_loop_pass (xs ys : list Z) n : forall i,
  (forall j, (i <= j < i + n)%nat ->
     exists a b, xs !! j = Some a /\ ys !! j = Some b /\ a + 1 = b) ->
  for_loop (fun i (_ : unit) =>
              a ← xs !! i; b ← ys !! i;
              if a + 1 =? b then Some tt else None) i n tt = Some tt.
Proof.
  induction n as [|n IH]; intros i Hall; [reflexivity |].
  destruct (Hall i) as (a & b & Ha & Hb & Hab); [lia |].
  cbn [for_loop]. rewrite Ha, Hb. simpl.
  rewrite (proj2 (Z.eqb_eq _ _) Hab). apply IH.
  intros j Hj. apply Hall. lia.
Qed.

Lemma plus_one_alloc src n :
  n = length src ->
  plus_one_loop src n (alloc_msg_buffer n) = Some (plus_one <$> src).
Proof.
  intros ->. apply plus_one_loop_spec, length_replicate.
Qed.

Lemma req_handler_cs_spec req :
  req_handler_cs req
  = Some (mkServerReqInfo (length req) (plus_one <$> req)).
Proof.
  unfold req_handler_cs. rewrite plus_one_alloc by reflexivity. reflexivity.
Qed.

Lemma req_handler_ss_spec req :
  req_handler_ss req = Some (plus_one <$> req).
Proof.
  unfold req_handler_ss. apply plus_one_alloc. reflexivity.
Qed.

(** The whole chain, for a request none of whose bytes reaches 255 at
    server 1. *)
Lemma nested_request_spec req :
  Forall (fun b => plus_one b <> 255) req ->
  nested_request req
  = Some ((fun b => plus_one (plus_one (plus_one b))) <$> req).
Proof.
  intros Hreq. unfold nested_request.
  rewrite req_handler_cs_spec. simpl.
  rewrite req_handler_ss_spec. simpl.
  unfold server_cont_func. simpl.
  rewrite bool_decide_eq_true_2 by (rewrite !length_fmap; reflexivity).
  rewrite check_loop_pass.
  - cbn [mbind option_bind].
    rewrite plus_one_alloc by (rewrite !length_fmap; reflexivity).
    rewrite <- !list_fmap_compose. reflexivity.
  - intros j Hj.
    destruct (lookup_lt_is_Some_2 req j) as [b Hb]; [lia |].
    exists (plus_one b), (plus_one (plus_one b)).
    rewrite !list_lookup_fmap, Hb. simpl. repeat split.
    rewrite Forall_lookup in Hreq. specialize (Hreq j b Hb). simpl in Hreq.
    unfold plus_one, wrap8 in *.
    pose proof (Z.mod_pos_bound (b + 1) (2 ^ 8) ltac:(lia)).
    symmetry. apply Z.mod_small. lia.
Qed.

(** The assertion of [server_cont_func] on a byte that wraps around: a
    client byte of 254 reaches server 1 as 255 and comes back as 0, which is
    not 255 + 1. *)
Example nested_request_wrap_aborts : nested_request [254] = None.
Proof. vm_compute. reflexivity. Qed.

Lemma client_request_helper_spec kSessionReqWindow msgbuf_i req_size :
  (msgbuf_i < kSessionReqWindow)%nat ->
  client_request_helper kSessionReqWindow msgbuf_i req_size
  = Some (replicate req_size (wrap8 (Z.of_nat msgbuf_i))).
Proof.
  intros Hm. unfold client_request_helper.
  rewrite bool_decide_eq_true_2 by exact Hm.
  assert (forall n i buf, (i + n <= length buf)%nat ->
            for_loop (fun i buf => store_byte i (Z.of_nat msgbuf_i) buf) i n buf
            = Some (take i buf ++ replicate n (wrap8 (Z.of_nat msgbuf_i))
                      ++ drop (i + n) buf)) as Hloop.
  { induction n as [|n IH]; intros i buf Hi.
    - simpl. rewrite Nat.add_0_r, take_drop. reflexivity.
    - cbn [for_loop]. unfold store_byte at 1.
      rewrite bool_decide_eq_true_2 by lia.
      rewrite IH by (rewrite length_insert; lia).
      rewrite take_S_insert by lia. rewrite drop_insert_lt by lia.
      rewrite <- app_assoc. simpl.
      replace (i + S n)%nat with (S (i + n)) by lia. reflexivity. }
  rewrite Hloop by (unfold alloc_msg_buffer; rewrite length_replicate; lia).
  simpl. rewrite drop_ge, app_nil_r
    by (unfold alloc_msg_buffer; rewrite length_replicate; lia).
  reflexivity.
Qed.

(** C6. In the nested-request scenario a buffer index is below
    [kSessionReqWindow], itself below [kAppNumReqs] by the [static_assert]
    of the test.  For a client request every byte of which is the fill byte
    [(uint8_t)msgbuf_i], the three handlers complete and the response that
    reaches the client has the length of the request, every byte being
    [(uint8_t)msgbuf_i + 3] modulo 256; the checks of the client's
    continuation pass on it. *)
Theorem nested_request_plus_three kSessionReqWindow msgbuf_i req :
  (kSessionReqWindow < kAppNumReqs)%nat ->
  (msgbuf_i < kSessionReqWindow)%nat ->
  Forall (fun b => b = wrap8 (Z.of_nat msgbuf_i)) req ->
  exists resp,
    nested_request req = Some resp /\
    length resp = length req /\
    Forall (fun b => b = wrap8 (wrap8 (Z.of_nat msgbuf_i) + 3)) resp /\
    client_cont_check resp (length req) (Z.of_nat msgbuf_i) = true.
Proof.
  unfold kAppNumReqs. intros Hk Hm Hreq.
  assert (wrap8 (Z.of_nat msgbuf_i) = Z.of_nat msgbuf_i) as Hfill.
  { apply Z.mod_small. lia. }
  assert (forall b, b = Z.of_nat msgbuf_i ->
            plus_one b <> 255 /\
            plus_one (plus_one (plus_one b)) = Z.of_nat msgbuf_i + 3) as Hbyte.
  { intros b ->. unfold plus_one, wrap8.
    rewrite !Z.mod_small; rewrite ?Z.mod_small; lia. }
  rewrite Hfill in *.
  exists ((fun b => plus_one (plus_one (plus_one b))) <$> req).
  assert (Forall (fun b => b = Z.of_nat msgbuf_i + 3)
            ((fun b => plus_one (plus_one (plus_one b))) <$> req)) as Hresp.
  { apply Forall_fmap. eapply Forall_impl; [exact Hreq |].
    intros b Hb. simpl. apply Hbyte, Hb. }
  split; [| split; [| split]].
  - apply nested_request_spec. eapply Forall_impl; [exact Hreq |].
    intros b Hb. apply Hbyte, Hb.
  - apply length_fmap.
  - eapply Forall_impl; [exact Hresp |]. intros b ->. simpl.
    symmetry. apply Z.mod_small. lia.
  - unfold client_cont_check.
    rewrite bool_decide_eq_true_2 by apply length_fmap. simpl.
    rewrite take_ge by (rewrite length_fmap; lia).
    apply forallb_forall. intros b Hb. rewrite Hfill.
    apply Z.eqb_eq. rewrite Forall_forall in Hresp. apply Hresp.
    apply list_elem_of_In, Hb.
Qed.

Lemma nested_request_plus_three_witness :
  exists resp,
    nested_request [5; 5; 5] = Some resp /\
    length resp = 3%nat /\
    Forall (fun b => b = wrap8 (wrap8 5 + 3)) resp /\
    client_cont_check resp 3 5 = true.
Proof.
  apply (nested_request_plus_three 8 5 [5; 5; 5]).
  - unfold kAppNumReqs. lia.
  - lia.
  - repeat constructor.
Defined.

End ReqInReqFacts.

(* ===================================================================== *)
(** * More about the in-flight list and the sweep: when they abort, what
      they send, how they compose *)
(* ===================================================================== *)

Section SmRetryEdges.
Import SmRetry.

Lemma not_Some_None {A} (m : option (unit * A)) :
  (forall a, m <> Some (tt, a)) -> m = None.
Proof.
  destruct m as [[[] a]|]; [| reflexivity]. intros Hno. destruct (Hno a eq_refl).
Qed.

(** X1. [add_to_in_flight] aborts exactly when one of its assertions fails: a
    null or unmanaged session, a pointer that holds no session, a session
    of server role, or a session that already has an entry. *)
Theorem add_to_in_flight_aborts sess tsc r :
  add_to_in_flight sess tsc r = None <->
  sess = NULL \/ sess ∉ session_vec r \/ sessions r !! sess = None \/
  (exists s, sessions r !! sess = Some s /\ Session.role s = Session.kServer) \/
  sess ∈ (session <$> in_flight_vec r).
Proof.
  split.
  - intros Hnone.
    destruct (decide (sess = NULL)) as [|Hnull]; [auto |].
    destruct (decide (sess ∈ session_vec r)) as [Hm|]; [| auto].
    destruct (sessions r !! sess) as [s|] eqn:Hmem; [| auto].
    destruct (Session.role s) eqn:Hrole; [right; right; right; left; eauto |].
    destruct (decide (sess ∈ (session <$> in_flight_vec r))) as [|Hnin];
      [auto 10 |].
    assert (add_to_in_flight sess tsc r
            = Some (tt, set_in_flight_vec
                          (in_flight_vec r ++ [mk_in_flight_req tsc sess]) r))
      as Hok by (apply add_to_in_flight_spec; repeat split; eauto).
    congruence.
  - intros Hbad. apply not_Some_None. intros r' Hrun.
    apply add_to_in_flight_spec in Hrun
      as (Hnull & Hm & (s & Hmem & Hrole) & Hnin & _).
    destruct Hbad as [?|[?|[Hn|[(s' & Hs' & Hr')|?]]]]; try contradiction;
      congruence.
Qed.

Lemma occurrences_remove_erase sess v :
  (length (remove_erase (mk_in_flight_req 0 sess) v) + occurrences sess v)%nat
  = length v.
Proof.
  unfold occurrences. induction v as [|req v IH]; [reflexivity |].
  rewrite remove_erase_cons. simpl.
  destruct (bool_decide (session req = sess)); simpl; lia.
Qed.

Lemma occurrences_pos sess v :
  sess ∈ (session <$> v) <-> (0 < occurrences sess v)%nat.
Proof.
  unfold occurrences. induction v as [|req v IH]; simpl.
  - split; [intros Hin; inversion Hin | lia].
  - rewrite elem_of_cons, IH.
    destruct (bool_decide_reflect (session req = sess)) as [E|E]; simpl.
    + split; [lia | auto].
    + split; [intros [?|?]; [congruence | assumption] | auto].
Qed.

(** X2. [remove_from_in_flight] completes exactly for a non-null, managed
    session that has one entry and no more: with no entry the assertion on
    [is_in_flight] fails, with several [std::remove] takes them all out and
    the assertion on the size fails. *)
Theorem remove_from_in_flight_exactly_once sess r :
  (exists r', remove_from_in_flight sess r = Some (tt, r')) <->
  sess <> NULL /\ sess ∈ session_vec r /\
  occurrences sess (in_flight_vec r) = 1%nat.
Proof.
  pose proof (occurrences_remove_erase sess (in_flight_vec r)) as Hocc.
  split.
  - intros (r' & Hrun).
    apply remove_from_in_flight_spec in Hrun as (Hnull & Hm & _ & Hsz & _).
    repeat split; auto. lia.
  - intros (Hnull & Hm & Hone). eexists.
    apply remove_from_in_flight_spec. repeat split; auto.
    + apply occurrences_pos. lia.
    + lia.
Qed.

(** X3. A completed [remove_from_in_flight] leaves the sessions, their
    table and the datagrams sent as they were; the entries of the other
    sessions stay, in their order and with their timestamps, and no other
    session changes its answer to [is_in_flight]. *)
Theorem remove_from_in_flight_keeps_others sess r r' :
  remove_from_in_flight sess r = Some (tt, r') ->
  sessions r' = sessions r /\ session_vec r' = session_vec r /\
  udp_out r' = udp_out r /\
  in_flight_vec r'
  = List.filter (fun req => negb (bool_decide (session req = sess)))
      (in_flight_vec r) /\
  (forall other, other <> sess ->
     fst <$> is_in_flight other r' = fst <$> is_in_flight other r).
Proof.
  intros Hrun.
  apply remove_from_in_flight_spec in Hrun as (_ & _ & _ & _ & ->).
  do 4 (split; [reflexivity |]).
  intros other Hne. rewrite !is_in_flight_spec. simpl. f_equal.
  apply bool_decide_ext. unfold remove_erase, in_flight_req_eqb. simpl.
  induction (in_flight_vec r) as [|req v IH]; [reflexivity |]. simpl.
  destruct (bool_decide_reflect (session req = sess)) as [E|E]; simpl.
  - rewrite elem_of_cons, IH. split; [auto | intros [?|?]; [congruence | auto]].
  - rewrite !elem_of_cons, IH. reflexivity.
Qed.

Lemma remove_from_in_flight_keeps_others_witness :
  in_flight_vec (set_in_flight_vec [mk_in_flight_req 100 2%N] sample_rpc)
  = [mk_in_flight_req 100 2%N] /\
  fst <$> is_in_flight 2%N
            (set_in_flight_vec [mk_in_flight_req 100 2%N] sample_rpc)
  = Some true.
Proof.
  destruct (remove_from_in_flight_keeps_others 1%N sample_rpc
              (set_in_flight_vec [mk_in_flight_req 100 2%N] sample_rpc))
    as (_ & _ & _ & Hv & Hothers).
  - vm_compute. reflexivity.
  - split; [reflexivity |].
    rewrite (Hothers 2%N) by discriminate. vm_compute. reflexivity.
Defined.

(** X5. [send_connect_req_one] aborts exactly when one of its assertions
    fails: a null or unmanaged session, a pointer that holds no session, a
    session of server role, or a session that is connected, disconnecting or
    disconnected. *)
Theorem send_connect_req_one_aborts sess r :
  send_connect_req_one sess r = None <->
  sess = NULL \/ sess ∉ session_vec r \/ sessions r !! sess = None \/
  (exists s, sessions r !! sess = Some s /\
     (Session.role s = Session.kServer \/
      Session.state s = kConnected \/
      Session.state s = kDisconnectInProgress \/
      Session.state s = kDisconnected)).
Proof.
  split.
  - intros Hnone.
    destruct (decide (sess = NULL)) as [|Hnull]; [auto |].
    destruct (decide (sess ∈ session_vec r)) as [Hm|]; [| auto].
    destruct (sessions r !! sess) as [s|] eqn:Hmem; [| auto].
    right; right; right. exists s. split; [reflexivity |].
    destruct (Session.role s) eqn:Hrole; [auto |].
    destruct (Session.state s) eqn:Hst; auto;
      (assert (send_connect_req_one sess r <> None) as Hok;
       [| contradiction]);
      (erewrite (proj2 (send_connect_req_one_spec sess r _)); [discriminate |]);
      (repeat split; auto; exists s; rewrite Hst; repeat split; auto).
  - intros Hbad. apply not_Some_None. intros r' Hrun.
    apply send_connect_req_one_spec in Hrun
      as (Hnull & Hm & s & Hmem & Hrole & Hst & _).
    destruct Hbad as [?|[?|[Hn|(s' & Hs' & Hbad)]]]; try contradiction;
      [congruence |].
    rewrite Hmem in Hs'. injection Hs' as <-. unfold connect_state in Hst.
    destruct Hbad as [Hb|[Hb|[Hb|Hb]]]; rewrite Hb in *; discriminate.
Qed.

Section SweepEdges.
Context `{Externals}.

Lemma retry_in_flight_entry_ok cur_tsc r r' req :
  retry_in_flight cur_tsc r = Some (tt, r') ->
  req ∈ in_flight_vec r -> entry_ok cur_tsc r req.
Proof.
  intros Hrun Hin. apply retry_in_flight_spec in Hrun as (_ & Hall & _).
  rewrite Forall_forall in Hall. apply Hall, Hin.
Qed.

(** X6. A sweep aborts on an empty in-flight list, and on a list one of whose
    sessions has settled: an entry left behind for a session that is
    connected or disconnected fails the sweep's assertion on the state. *)
Theorem retry_in_flight_aborts_on_settled cur_tsc r :
  (in_flight_vec r = [] \/
   exists req s, req ∈ in_flight_vec r /\
     sessions r !! session req = Some s /\
     (Session.state s = kConnected \/ Session.state s = kDisconnected)) ->
  retry_in_flight cur_tsc r = None.
Proof.
  intros Hbad. apply not_Some_None. intros r' Hrun.
  destruct Hbad as [Hnil|(req & s & Hin & Hmem & Hst)].
  - apply retry_in_flight_spec in Hrun as (Hne & _). contradiction.
  - destruct (retry_in_flight_entry_ok _ _ _ _ Hrun Hin)
      as (_ & s' & Hmem' & Hfl & _).
    rewrite Hmem in Hmem'. injection Hmem' as <-.
    unfold in_flight_state in Hfl.
    destruct Hst as [Hst|Hst]; rewrite Hst in Hfl; discriminate.
Qed.

Lemma retry_in_flight_aborts_on_equal_tsc cur_tsc r :
  (exists req, req ∈ in_flight_vec r /\ wrap64 (cur_tsc - prev_tsc req) = 0) ->
  retry_in_flight cur_tsc r = None.
Proof.
  intros (req & Hin & Hz). apply not_Some_None. intros r' Hrun.
  destruct (retry_in_flight_entry_ok _ _ _ _ Hrun Hin)
    as (_ & s & _ & _ & Hel & _).
  unfold elapsed_cycles in Hel. lia.
Qed.

Lemma add_then_retry_same_tsc sess tsc r r1 :
  add_to_in_flight sess tsc r = Some (tt, r1) ->
  retry_in_flight tsc r1 = None.
Proof.
  intros Hadd. apply add_to_in_flight_spec in Hadd as (_ & _ & _ & _ & ->).
  apply retry_in_flight_aborts_on_equal_tsc.
  exists (mk_in_flight_req tsc sess). split.
  - simpl. apply elem_of_app. right. apply list_elem_of_singleton. reflexivity.
  - simpl. rewrite Z.sub_diag. reflexivity.
Qed.

Lemma retry_twice_same_tsc cur_tsc r r1 req :
  retry_in_flight cur_tsc r = Some (tt, r1) ->
  req ∈ in_flight_vec r ->
  expired cur_tsc req = true ->
  retry_in_flight cur_tsc r1 = None.
Proof.
  intros Hrun Hin Hexp. apply retry_in_flight_spec in Hrun as (_ & _ & ->).
  apply retry_in_flight_aborts_on_equal_tsc.
  exists (set_prev_tsc cur_tsc req). split.
  - simpl. apply list_elem_of_fmap. exists req. split; [| exact Hin].
    unfold refresh. rewrite Hexp. reflexivity.
  - simpl. rewrite Z.sub_diag. reflexivity.
Qed.

(** X7. A sweep whose clock reading is, modulo 2^64, the timestamp of an entry
    aborts on [assert(elapsed_cycles > 0)].  So does a sweep right after
    [add_to_in_flight] at the same reading, and a second sweep at the
    reading of a first one that found an expired entry. *)
Theorem retry_in_flight_same_reading_aborts cur_tsc r :
  (forall req, req ∈ in_flight_vec r -> wrap64 (cur_tsc - prev_tsc req) = 0 ->
     retry_in_flight cur_tsc r = None) /\
  (forall sess r1, add_to_in_flight sess cur_tsc r = Some (tt, r1) ->
     retry_in_flight cur_tsc r1 = None) /\
  (forall r1 req, retry_in_flight cur_tsc r = Some (tt, r1) ->
     req ∈ in_flight_vec r -> expired cur_tsc req = true ->
     retry_in_flight cur_tsc r1 = None).
Proof.
  split; [| split].
  - intros req Hin Hz. apply retry_in_flight_aborts_on_equal_tsc. eauto.
  - intros sess r1. apply add_then_retry_same_tsc.
  - intros r1 req. apply retry_twice_same_tsc.
Qed.


(** X9. A sweep that finds no entry expired leaves the endpoint exactly as it
    was and sends nothing. *)
Theorem retry_in_flight_nothing_expired cur_tsc r r' :
  retry_in_flight cur_tsc r = Some (tt, r') ->
  Forall (fun req => expired cur_tsc req = false) (in_flight_vec r) ->
  r' = r.
Proof.
  intros Hrun Hnone. apply retry_in_flight_spec in Hrun as (_ & _ & ->).
  assert (refresh cur_tsc <$> in_flight_vec r = in_flight_vec r) as ->.
  { induction Hnone as [|req v Hreq _ IH]; [reflexivity |].
    rewrite fmap_cons, IH. unfold refresh. rewrite Hreq. reflexivity. }
  assert (flat_map (retrans_dgrams cur_tsc (sessions r)) (in_flight_vec r) = [])
    as ->.
  { induction Hnone as [|req v Hreq _ IH]; [reflexivity |].
    cbn [flat_map]. rewrite IH. unfold retrans_dgrams. rewrite Hreq.
    destruct (sessions r !! session req); reflexivity. }
  rewrite app_nil_r. destruct r; reflexivity.
Qed.

Lemma retry_in_flight_entry cur_tsc r r' i req :
  retry_in_flight cur_tsc r = Some (tt, r') ->
  in_flight_vec r !! i = Some req ->
  in_flight_vec r' !! i
  = Some (mk_in_flight_req
            (if expired cur_tsc req then cur_tsc else prev_tsc req)
            (session req)).
Proof.
  intros Hrun Hi. apply retry_in_flight_spec in Hrun as (_ & _ & ->).
  cbn [in_flight_vec]. rewrite list_lookup_fmap, Hi. simpl. f_equal.
  unfold refresh, set_prev_tsc. destruct (expired cur_tsc req), req; reflexivity.
Qed.

(** X10. Two sweeps in a row: the second measures the time of an entry from the
    first sweep when that one resent it, and from the entry's older
    timestamp when it did not. *)
Theorem retry_twice_measures_from_last_send cur1 cur2 r r1 r2 i req :
  retry_in_flight cur1 r = Some (tt, r1) ->
  retry_in_flight cur2 r1 = Some (tt, r2) ->
  in_flight_vec r !! i = Some req ->
  let last_sent := if expired cur1 req then cur1 else prev_tsc req in
  in_flight_vec r1 !! i = Some (mk_in_flight_req last_sent (session req)) /\
  in_flight_vec r2 !! i
  = Some (mk_in_flight_req
            (if dgt (elapsed_ms cur2 last_sent) kSessionMgmtRetransMs
             then cur2 else last_sent)
            (session req)).
Proof.
  intros Hrun1 Hrun2 Hi last_sent.
  pose proof (retry_in_flight_entry _ _ _ _ _ Hrun1 Hi) as Hent1.
  split; [exact Hent1 |].
  exact (retry_in_flight_entry _ _ _ _ _ Hrun2 Hent1).
Qed.

End SweepEdges.

Lemma retry_in_flight_aborts_on_settled_witness :
  retry_in_flight (H := ideal_externals) sample_later sample_rpc_settled = None.
Proof.
  apply (retry_in_flight_aborts_on_settled (H := ideal_externals)).
  right. exists (mk_in_flight_req 100 1%N), connected_session.
  split; [simpl; left |].
  split; [vm_compute; reflexivity | left; reflexivity].
Defined.


Lemma sample_sweep_early :
  retry_in_flight (H := ideal_externals) 101 sample_rpc = Some (tt, sample_rpc).
Proof. vm_compute. reflexivity. Defined.

Lemma retry_in_flight_nothing_expired_witness :
  retry_in_flight (H := ideal_externals) 101 sample_rpc = Some (tt, sample_rpc) /\
  sample_rpc = sample_rpc.
Proof.
  split; [exact sample_sweep_early |].
  apply (retry_in_flight_nothing_expired (H := ideal_externals)
           101 sample_rpc sample_rpc sample_sweep_early).
  repeat constructor.
Defined.

Lemma sample_sweep_again :
  retry_in_flight (H := ideal_externals) (sample_later + 1) sample_rpc_swept
  = Some (tt, sample_rpc_swept).
Proof. vm_compute. reflexivity. Defined.

Lemma retry_twice_measures_from_last_send_witness :
  in_flight_vec sample_rpc_swept !! 1%nat
  = Some (mk_in_flight_req sample_later 2%N).
Proof.
  destruct (retry_twice_measures_from_last_send (H := ideal_externals)
              sample_later (sample_later + 1) sample_rpc sample_rpc_swept
              sample_rpc_swept 1 (mk_in_flight_req 100 2%N)
              sample_sweep sample_sweep_again eq_refl) as [_ H2].
  exact H2.
Defined.

End SmRetryEdges.

(* ===================================================================== *)
(** * More about the nested-request test: layout of tags, sizes, and the
      assertions of the handlers *)
(* ===================================================================== *)

Section ReqInReqEdges.
Import ReqInReq.

(** X12. The pointer saved in a tag by [req_handler_cs] comes back to
    [server_cont_func] through the [size_t] word, for either byte order. *)
Theorem tag_ptr_round_trip o p :
  0 <= p < 2 ^ 64 ->
  0 <= tag_word o (tag_of_ptr o p) < 2 ^ 64 /\
  tag_ptr o (tag_of_word o (tag_word o (tag_of_ptr o p))) = p.
Proof.
  intros Hp. unfold tag_ptr, tag_of_word, tag_word, tag_of_ptr.
  rewrite (take_ge (store o 8 p)) by (rewrite store_length; lia).
  rewrite load_store by exact Hp.
  rewrite take_ge by (rewrite store_length; lia).
  rewrite load_store by exact Hp. auto.
Qed.

Lemma tag_ptr_round_trip_witness :
  tag_ptr BigEndian
    (tag_of_word BigEndian (tag_word BigEndian (tag_of_ptr BigEndian 140737488355328)))
  = 140737488355328.
Proof. apply (tag_ptr_round_trip BigEndian 140737488355328). lia. Defined.

Lemma le_value_app xs ys :
  le_value (xs ++ ys) = le_value xs + 256 ^ Z.of_nat (length xs) * le_value ys.
Proof.
  induction xs as [|x xs IH]; [simpl; lia |].
  cbn [app le_value length]. rewrite IH, Nat2Z.inj_succ, Z.pow_succ_r by lia. ring.
Qed.

(** X13. The layout of the tag word: on a little-endian machine [req_i] is the
    low 16 bits, [msgbuf_i] the next 16 and [req_size] the high 32; on a
    big-endian machine the order is the reverse. *)
Theorem tag_word_layout req_i msgbuf_i req_size :
  0 <= req_i < 2 ^ 16 ->
  0 <= msgbuf_i < 2 ^ 16 ->
  0 <= req_size < 2 ^ 32 ->
  tag_word LittleEndian (tag_of_fields LittleEndian req_i msgbuf_i req_size)
  = req_i + 2 ^ 16 * msgbuf_i + 2 ^ 32 * req_size /\
  tag_word BigEndian (tag_of_fields BigEndian req_i msgbuf_i req_size)
  = 2 ^ 48 * req_i + 2 ^ 32 * msgbuf_i + req_size.
Proof.
  intros Hi Hm Hs. unfold tag_word, tag_of_fields.
  rewrite !take_ge by (rewrite !length_app, !store_length; lia).
  unfold load, store. split.
  - rewrite !le_value_app, !le_bytes_length, !le_value_le_bytes by assumption.
    change (256 ^ Z.of_nat 2) with (2 ^ 16). lia.
  - rewrite !rev_app_distr, !rev_involutive, <- !app_assoc.
    rewrite !le_value_app, !le_bytes_length, !le_value_le_bytes by assumption.
    change (256 ^ Z.of_nat 2) with (2 ^ 16).
    change (256 ^ Z.of_nat 4) with (2 ^ 32). lia.
Qed.

Lemma tag_word_layout_witness :
  tag_word LittleEndian (tag_of_fields LittleEndian 29 7 4096)
  = 29 + 2 ^ 16 * 7 + 2 ^ 32 * 4096 /\
  tag_word BigEndian (tag_of_fields BigEndian 29 7 4096)
  = 2 ^ 48 * 29 + 2 ^ 32 * 7 + 4096.
Proof. apply (tag_word_layout 29 7 4096); lia. Defined.

(** X14. The size [get_rand_msg_size] returns, exactly: the residue of the
    sample, 1 standing in for a zero residue.  It fits a [uint32_t], so the
    cast that packs it into a tag loses nothing; the size 1 is drawn for two
    residues, 0 and 1; and with [kMaxMsgSize = 1] the size is always 1,
    which is not below [kMaxMsgSize].  A [kMaxMsgSize] of 0 is a remainder
    by zero. *)
Theorem get_rand_msg_size_exact kMaxMsgSize sample :
  0 <= sample < 2 ^ 32 ->
  (kMaxMsgSize = 0 -> get_rand_msg_size kMaxMsgSize sample = None) /\
  (0 < kMaxMsgSize ->
   exists msg_size,
     get_rand_msg_size kMaxMsgSize sample = Some msg_size /\
     msg_size = Z.max 1 (sample mod kMaxMsgSize) /\
     1 <= msg_size < 2 ^ 32 /\
     (msg_size = 1 <-> sample mod kMaxMsgSize <= 1) /\
     (kMaxMsgSize = 1 -> msg_size = 1)).
Proof.
  intros Hs. unfold get_rand_msg_size, wrap32. split.
  - intros ->. reflexivity.
  - intros Hk. destruct (Z.eqb_spec kMaxMsgSize 0) as [E|_]; [lia |].
    pose proof (Z.mod_pos_bound sample kMaxMsgSize Hk) as Hr.
    pose proof (Z.mod_le sample kMaxMsgSize ltac:(lia) Hk) as Hle.
    rewrite (Z.mod_small (sample mod kMaxMsgSize)) by lia.
    eexists. split; [reflexivity |].
    destruct (Z.eqb_spec (sample mod kMaxMsgSize) 0) as [E|E]; lia.
Qed.

Lemma get_rand_msg_size_exact_witness :
  exists msg_size,
    get_rand_msg_size 4294967296000 4294967295 = Some msg_size /\
    msg_size = Z.max 1 (4294967295 mod 4294967296000) /\
    1 <= msg_size < 2 ^ 32.
Proof.
  destruct (get_rand_msg_size_exact 4294967296000 4294967295) as [_ Hpos];
    [lia |].
  destruct Hpos as (sz & Hrun & Hval & Hrange & _); [lia |].
  exists sz. auto.
Defined.


Lemma check_loop_iff (xs ys : list Z) n : forall i,
  for_loop (fun i (_ : unit) =>
              a ← xs !! i; b ← ys !! i;
              if a + 1 =? b then Some tt else None) i n tt = Some tt <->
  (forall j, (i <= j < i + n)%nat ->
     exists a b, xs !! j = Some a /\ ys !! j = Some b /\ a + 1 = b).
Proof.
  intros i. split; [| apply check_loop_pass].
  revert i. induction n as [|n IH]; intros i Hrun j Hj; [lia |].
  cbn [for_loop] in Hrun.
  destruct (xs !! i) as [a|] eqn:Ha; [| discriminate].
  destruct (ys !! i) as [b|] eqn:Hb; [| discriminate].
  cbn [mbind option_bind] in Hrun.
  destruct (Z.eqb_spec (a + 1) b) as [Hab|]; [| discriminate].
  destruct (decide (j = i)) as [->|Hne]; [eauto |].
  apply (IH (S i) Hrun). lia.
Qed.

(** What [server_cont_func] has checked when it completes, and what makes
    it complete. *)
Lemma server_cont_func_iff info resp out :
  length (req_msgbuf_ss info) = req_size_cs info ->
  server_cont_func info resp = Some out <->
  length resp = req_size_cs info /\
  (forall i a b, req_msgbuf_ss info !! i = Some a -> resp !! i = Some b ->
     a + 1 = b) /\
  out = plus_one <$> resp.
Proof.
  intros Hinfo. unfold server_cont_func.
  destruct (bool_decide_reflect (length resp = req_size_cs info)) as [Hlen|Hlen].
  2: { split; [discriminate | intros [? _]; contradiction]. }
  destruct (for_loop _ 0 (req_size_cs info) tt) as [[]|] eqn:Hchk;
    cbn [mbind option_bind].
  - pose proof (proj1 (check_loop_iff _ _ _ _) Hchk) as Hall. clear Hchk.
    rename Hall into Hchk.
    rewrite plus_one_alloc by (symmetry; exact Hlen).
    split.
    + intros [= <-]. repeat split; auto.
      intros i a b Ha Hb. pose proof (lookup_lt_Some _ _ _ Ha) as Hi.
      destruct (Hchk i) as (a' & b' & Ha' & Hb' & Hab); [lia |]. congruence.
    + intros (_ & _ & ->). reflexivity.
  - split; [discriminate |]. intros (_ & Hall & _).
    assert (for_loop (fun i (_ : unit) =>
              a ← req_msgbuf_ss info !! i; b ← resp !! i;
              if a + 1 =? b then Some tt else None) 0 (req_size_cs info) tt
            = Some tt) as Hok; [| congruence].
    apply check_loop_pass. intros j Hj.
    destruct (lookup_lt_is_Some_2 (req_msgbuf_ss info) j) as [a Ha]; [lia |].
    destruct (lookup_lt_is_Some_2 resp j) as [b Hb]; [lia |].
    exists a, b. repeat split; auto. eapply Hall; eauto.
Qed.

(** X16. [server_cont_func] completes exactly when its two assertions hold: the
    response has the size of the client's request, and every byte of it is,
    as an [int], the byte of the request sent to server 1 plus one.  What
    it then sends to the client is the response plus one. *)
Theorem server_cont_func_spec info resp out :
  length (req_msgbuf_ss info) = req_size_cs info ->
  server_cont_func info resp = Some out <->
  length resp = req_size_cs info /\
  (forall i a b, req_msgbuf_ss info !! i = Some a -> resp !! i = Some b ->
     a + 1 = b) /\
  out = plus_one <$> resp.
Proof.
  intros Hinfo. split.
  - intros Hrun. apply (server_cont_func_iff info resp out Hinfo) in Hrun.
    exact Hrun.
  - intros (Hlen & Hall & ->). unfold server_cont_func.
    rewrite bool_decide_eq_true_2 by exact Hlen.
    rewrite check_loop_pass.
    + cbn [mbind option_bind]. apply plus_one_alloc. symmetry. exact Hlen.
    + intros j Hj.
      destruct (lookup_lt_is_Some_2 (req_msgbuf_ss info) j) as [a Ha]; [lia |].
      destruct (lookup_lt_is_Some_2 resp j) as [b Hb]; [lia |].
      exists a, b. repeat split; auto. eapply Hall; eauto.
Qed.

Lemma server_cont_func_spec_witness :
  server_cont_func (mkServerReqInfo 2 [6; 6]) [7; 7] = Some [8; 8] <->
  length [7; 7] = 2%nat /\
  (forall i a b, [6; 6] !! i = Some a -> [7; 7] !! i = Some b -> a + 1 = b) /\
  [8; 8] = plus_one <$> [7; 7].
Proof.
  apply (server_cont_func_spec (mkServerReqInfo 2 [6; 6]) [7; 7] [8; 8]).
  reflexivity.
Defined.

(** X17. The chain of the three handlers aborts exactly on a request holding a
    byte of 254: that byte is 255 at server 1 and 0 in its response, which
    fails the assertion of [server_cont_func], where 255 + 1 is 256. *)
Theorem nested_request_aborts_iff req :
  Forall is_byte req ->
  nested_request req = None <-> 254 ∈ req.
Proof.
  intros Hreq.
  assert (forall b, is_byte b -> plus_one b = 255 <-> b = 254) as H254.
  { intros b Hb. unfold is_byte, plus_one, wrap8 in *.
    destruct (decide (b = 255)) as [->|]; [split; [discriminate | lia] |].
    rewrite Z.mod_small by lia. lia. }
  split.
  - intros Hnone. destruct (decide (254 ∈ req)) as [|Hnin]; [assumption |].
    rewrite nested_request_spec in Hnone; [discriminate |].
    apply Forall_forall. intros b Hin Hb.
    rewrite Forall_forall in Hreq. apply H254 in Hb; [| apply Hreq, Hin].
    subst b. contradiction.
  - intros Hin. unfold nested_request.
    rewrite req_handler_cs_spec. cbn [mbind option_bind req_msgbuf_ss].
    rewrite req_handler_ss_spec. cbn [mbind option_bind].
    destruct (server_cont_func _ _) as [out|] eqn:Hrun; [| reflexivity].
    apply server_cont_func_iff in Hrun as (_ & Hall & _);
      [| simpl; apply length_fmap].
    apply list_elem_of_lookup in Hin as [i Hi]. simpl in Hall.
    specialize (Hall i (plus_one 254) (plus_one (plus_one 254))).
    rewrite !list_lookup_fmap, Hi in Hall.
    specialize (Hall eq_refl eq_refl). vm_compute in Hall. discriminate.
Qed.

Lemma nested_request_aborts_iff_witness :
  nested_request [3; 254; 3] = None <-> 254 ∈ [3; 254; 3].
Proof.
  apply (nested_request_aborts_iff [3; 254; 3]).
  repeat constructor; unfold is_byte; lia.
Defined.



End ReqInReqEdges.

(* ===================================================================== *)
(** * The client thread of the nested-request test *)
(* ===================================================================== *)

Section ClientFacts.
Import ReqInReq.

Variable o : byte_order.
Variable kSessionReqWindow : nat.
Variable kMaxMsgSize : Z.

(** The window is not empty and, by the [static_assert] of the test, below
    [kAppNumReqs]; a message can have more than one byte. *)
Hypothesis window_range : (0 < kSessionReqWindow < kAppNumReqs)%nat.
Hypothesis max_msg_size : 1 < kMaxMsgSize.

Local Abbreviation helper := (client_request_helper_full o kSessionReqWindow kMaxMsgSize).
Local Abbreviation deliver := (deliver o kSessionReqWindow kMaxMsgSize).
Local Abbreviation client_start := (client_start o kSessionReqWindow kMaxMsgSize).
Local Abbreviation client_reachable :=
  (client_reachable o kSessionReqWindow kMaxMsgSize).
Local Abbreviation pending_ok := (pending_ok o kSessionReqWindow kMaxMsgSize).
Local Abbreviation client_inv := (client_inv o kSessionReqWindow kMaxMsgSize).

Lemma get_rand_msg_size_bounds sample :
  exists req_size,
    get_rand_msg_size kMaxMsgSize sample = Some req_size /\
    1 <= req_size < kMaxMsgSize /\ req_size < 2 ^ 32.
Proof.
  unfold get_rand_msg_size, wrap32.
  destruct (Z.eqb_spec kMaxMsgSize 0) as [E|_]; [lia |].
  pose proof (Z.mod_pos_bound sample kMaxMsgSize ltac:(lia)) as Hr.
  pose proof (Z.mod_pos_bound (sample mod kMaxMsgSize) (2 ^ 32) ltac:(lia)) as Hw.
  pose proof (Z.mod_le (sample mod kMaxMsgSize) (2 ^ 32) ltac:(lia) ltac:(lia))
    as Hle.
  eexists. split; [reflexivity |].
  destruct (Z.eqb_spec ((sample mod kMaxMsgSize) mod 2 ^ 32) 0); lia.
Qed.

Lemma fill_loop v n : forall i mem,
  (i + n <= length mem)%nat ->
  for_loop (fun i mem => store_byte i v mem) i n mem
  = Some (take i mem ++ replicate n (wrap8 v) ++ drop (i + n) mem).
Proof.
  induction n as [|n IH]; intros i mem Hi.
  - simpl. rewrite Nat.add_0_r, take_drop. reflexivity.
  - cbn [for_loop]. unfold store_byte at 1.
    rewrite bool_decide_eq_true_2 by lia.
    rewrite IH by (rewrite length_insert; lia).
    rewrite take_S_insert by lia. rewrite drop_insert_lt by lia.
    rewrite <- app_assoc. simpl.
    replace (i + S n)%nat with (S (i + n)) by lia. reflexivity.
Qed.

Lemma tag_fields_read a b c :
  0 <= a < 2 ^ 16 -> 0 <= b < 2 ^ 16 -> 0 <= c < 2 ^ 32 ->
  let t := tag_of_word o (tag_word o (tag_of_fields o a b c)) in
  tag_msgbuf_i o t = b /\ tag_req_size o t = c.
Proof.
  intros Ha Hb Hc t.
  assert (length (tag_of_fields o a b c) = 8%nat) as Hlen.
  { unfold tag_of_fields. rewrite !length_app, !store_length. reflexivity. }
  assert (t = tag_of_fields o a b c) as ->.
  { unfold t, tag_of_word, tag_word. rewrite take_ge by lia. rewrite <- Hlen.
    apply store_load. unfold tag_of_fields. rewrite !Forall_app.
    repeat split; apply store_is_byte. }
  unfold tag_msgbuf_i, tag_req_size, tag_of_fields. split.
  - rewrite drop_app_length' by (rewrite store_length; reflexivity).
    rewrite take_app_length' by (rewrite store_length; reflexivity).
    apply load_store. exact Hb.
  - rewrite app_assoc.
    rewrite drop_app_length'
      by (rewrite length_app, !store_length; reflexivity).
    rewrite take_ge by (rewrite store_length; lia).
    apply load_store. exact Hc.
Qed.

(** [client_request_helper] on a buffer that is allocated and a window that
    has a free slot. *)
Lemma helper_spec sample i c b :
  (i < kSessionReqWindow)%nat ->
  req_msgbuf c !! i = Some (Some b) ->
  length (buf b) = Z.to_nat kMaxMsgSize ->
  (length (pending c) < kSessionReqWindow)%nat ->
  0 <= num_reqs_sent c < Z.of_nat kAppNumReqs ->
  exists b' req_size tag,
    helper sample i c
    = Some (mkClient (<[i := Some b']> (req_msgbuf c))
                     (num_reqs_sent c + 1) (num_rpc_resps c)
                     (pending c ++ [mkPending tag i])) /\
    length (buf b') = Z.to_nat kMaxMsgSize /\
    1 <= req_size < kMaxMsgSize /\
    buf_data b' = replicate (Z.to_nat req_size) (wrap8 (Z.of_nat i)) /\
    tag_req_size o (tag_of_word o tag) = req_size /\
    tag_msgbuf_i o (tag_of_word o tag) = Z.of_nat i.
Proof.
  intros Hi Hslot Hcap Hfree Hsent. unfold kAppNumReqs in *.
  destruct (get_rand_msg_size_bounds sample) as (sz & Hsz & Hrange & H32).
  unfold client_request_helper_full.
  rewrite bool_decide_eq_true_2 by exact Hi.
  rewrite Hsz. cbn [mbind option_bind]. rewrite Hslot. cbn [mbind option_bind].
  unfold resize_msg_buffer. rewrite bool_decide_eq_true_2 by lia.
  cbn [mbind option_bind buf data_size].
  rewrite fill_loop by lia. cbn [mbind option_bind].
  unfold enqueue_request. cbn [pending req_msgbuf num_reqs_sent num_rpc_resps].
  rewrite bool_decide_eq_true_2 by exact Hfree. cbn [Z.eqb].
  cbn [pending req_msgbuf num_reqs_sent num_rpc_resps].
  assert (wrap64 (num_reqs_sent c + 1) = num_reqs_sent c + 1) as ->
    by (apply Z.mod_small; lia).
  destruct (tag_fields_read (wrap16 (num_reqs_sent c)) (wrap16 (Z.of_nat i))
              (wrap32 sz)) as [Htm Hts].
  { apply Z.mod_pos_bound. lia. }
  { apply Z.mod_pos_bound. lia. }
  { apply Z.mod_pos_bound. lia. }
  eexists _, sz, _. split; [reflexivity |].
  split; [| split; [exact Hrange |]; split; [| split]].
  - cbn [buf]. rewrite take_0. cbn [app].
    rewrite length_app, length_replicate, length_drop. lia.
  - unfold buf_data. cbn [buf data_size].
    rewrite take_0. cbn [app].
    rewrite take_app_length' by (rewrite length_replicate; reflexivity).
    reflexivity.
  - rewrite Hts. apply Z.mod_small. lia.
  - rewrite Htm. apply Z.mod_small. lia.
Qed.

Local Abbreviation client_core := (client_core o kSessionReqWindow kMaxMsgSize).
Local Abbreviation slot_cap := (slot_cap kMaxMsgSize).

Lemma pending_ok_same_slot c c' p :
  req_msgbuf c' !! pend_msgbuf p = req_msgbuf c !! pend_msgbuf p ->
  pending_ok c p -> pending_ok c' p.
Proof.
  intros Hsame (b & sz & Hi & Hslot & Hrest). exists b, sz.
  split; [exact Hi |]. split; [rewrite Hsame; exact Hslot | exact Hrest].
Qed.

(** Sending a request from a buffer no pending request uses. *)
Lemma helper_core sample i c :
  client_core c ->
  (i < kSessionReqWindow)%nat ->
  (exists b, req_msgbuf c !! i = Some (Some b)) ->
  (length (pending c) < kSessionReqWindow)%nat ->
  i ∉ (pend_msgbuf <$> pending c) ->
  0 <= num_reqs_sent c < Z.of_nat kAppNumReqs ->
  exists c',
    helper sample i c = Some c' /\
    client_core c' /\
    num_reqs_sent c' = num_reqs_sent c + 1 /\
    num_rpc_resps c' = num_rpc_resps c /\
    pend_msgbuf <$> pending c' = (pend_msgbuf <$> pending c) ++ [i] /\
    (forall j, (exists b, req_msgbuf c !! j = Some (Some b)) ->
               exists b, req_msgbuf c' !! j = Some (Some b)).
Proof.
  intros (Hlen & Hcap & Hnd & Hpend) Hi (b & Hslot) Hfree Hfresh Hsent.
  assert (length (buf b) = Z.to_nat kMaxMsgSize) as Hb.
  { apply (Forall_lookup_1 _ _ _ _ Hcap Hslot). reflexivity. }
  destruct (helper_spec sample i c b Hi Hslot Hb Hfree Hsent)
    as (b' & sz & tag & Hrun & Hb' & Hsz & Hdata & Hts & Htm).
  eexists. split; [exact Hrun |]. cbn [num_reqs_sent num_rpc_resps pending].
  split; [| split; [reflexivity |]; split; [reflexivity |]; split].
  - unfold ReqInReq.client_core. cbn [req_msgbuf pending].
    split; [rewrite length_insert; exact Hlen |]. split; [| split].
    + apply Forall_insert; [exact Hcap |]. intros b0 [= <-]. exact Hb'.
    + rewrite fmap_app. apply NoDup_app. split; [exact Hnd |]. split.
      * intros x Hx Hx'. apply list_elem_of_singleton in Hx'. subst x.
        contradiction.
      * apply NoDup_singleton.
    + apply Forall_app. split.
      * apply Forall_forall. intros p Hp.
        apply (pending_ok_same_slot c); [| rewrite Forall_forall in Hpend; auto].
        cbn [req_msgbuf]. apply list_lookup_insert_ne. intros ->.
        apply Hfresh. apply list_elem_of_fmap. eauto.
      * apply Forall_singleton. exists b', sz. cbn [pend_msgbuf pend_tag req_msgbuf].
        split; [exact Hi |].
        split; [apply list_lookup_insert_eq; lia |]. auto.
  - rewrite fmap_app. reflexivity.
  - intros j (bj & Hj). cbn [req_msgbuf].
    destruct (decide (i = j)) as [->|Hne].
    + exists b'. apply list_lookup_insert_eq. lia.
    + exists bj. rewrite list_lookup_insert_ne by exact Hne. exact Hj.
Qed.

Lemma for_loop_inv {St} (body : nat -> St -> option St)
    (P : nat -> St -> Prop) n : forall i s,
  P i s ->
  (forall j s, (i <= j < i + n)%nat -> P j s ->
     exists s', body j s = Some s' /\ P (S j) s') ->
  exists s', for_loop body i n s = Some s' /\ P (i + n)%nat s'.
Proof.
  induction n as [|n IH]; intros i s HP Hstep.
  - exists s. rewrite Nat.add_0_r. auto.
  - destruct (Hstep i s) as (s1 & Hbody & HP1); [lia | exact HP |].
    cbn [for_loop]. rewrite Hbody.
    destruct (IH (S i) s1 HP1) as (s' & Hrun & HP').
    { intros j s2 Hj. apply Hstep. lia. }
    exists s'. split; [exact Hrun |].
    replace (i + S n)%nat with (S i + n)%nat by lia. exact HP'.
Qed.

(** The start of the thread fills the window. *)
Lemma client_start_inv samples :
  exists c, client_start samples = Some c /\ client_inv c.
Proof.
  unfold kAppNumReqs in *.
  set (P := fun (i : nat) (c : Client) =>
    client_core c /\
    (forall j, (j < i)%nat -> exists b, req_msgbuf c !! j = Some (Some b)) /\
    Forall (fun slot => slot = None \/ slot_cap slot) (req_msgbuf c) /\
    num_reqs_sent c = Z.of_nat i /\ num_rpc_resps c = 0 /\
    pend_msgbuf <$> pending c = seq 0 i).
  destruct (for_loop_inv
    (fun i c =>
       let c := mkClient (<[i := Some (alloc_max kMaxMsgSize)]> (req_msgbuf c))
                         (num_reqs_sent c) (num_rpc_resps c) (pending c) in
       helper (nth i samples 0) i c)
    P kSessionReqWindow 0
    (mkClient (replicate kSessionReqWindow None) 0 0 []))
    as (c & Hrun & (Hcore & Halloc & _ & Hsent & Hresps & Hidx)).
  - unfold P, ReqInReq.client_core. cbn.
    rewrite length_replicate. repeat split; try constructor; try lia.
    + apply Forall_replicate. intros b Hb. discriminate.
    + apply Forall_replicate. auto.
  - intros j c0 Hj (Hcore & Halloc & Hslots & Hsent & Hresps & Hidx).
    destruct Hcore as (Hlen & Hcap & Hnd & Hpend).
    set (c1 := mkClient (<[j := Some (alloc_max kMaxMsgSize)]> (req_msgbuf c0))
                        (num_reqs_sent c0) (num_rpc_resps c0) (pending c0)).
    assert (j ∉ (pend_msgbuf <$> pending c0)) as Hfresh.
    { rewrite Hidx, elem_of_seq. lia. }
    assert (length (pending c0) = j) as Hpl.
    { rewrite <- (length_fmap pend_msgbuf), Hidx, length_seq. reflexivity. }
    destruct (helper_core (nth j samples 0) j c1)
      as (c' & Hrun & Hcore' & Hsent' & Hresps' & Hidx' & Halloc').
    + unfold ReqInReq.client_core, c1. cbn [req_msgbuf pending].
      split; [rewrite length_insert; exact Hlen |]. split; [| split].
      * apply Forall_insert; [exact Hcap |]. intros b [= <-].
        unfold alloc_max. cbn [buf]. apply length_replicate.
      * exact Hnd.
      * apply Forall_forall. intros p Hp.
        apply (pending_ok_same_slot c0); [| rewrite Forall_forall in Hpend; auto].
        cbn [req_msgbuf]. apply list_lookup_insert_ne. intros ->.
        apply Hfresh. apply list_elem_of_fmap. eauto.
    + lia.
    + exists (alloc_max kMaxMsgSize). unfold c1. cbn [req_msgbuf].
      apply list_lookup_insert_eq. lia.
    + unfold c1. cbn [pending]. lia.
    + exact Hfresh.
    + unfold c1. cbn [num_reqs_sent].
      pose proof window_range as Hw. unfold kAppNumReqs in *. lia.
    + exists c'. split; [exact Hrun |]. unfold P.
      split; [exact Hcore' |]. split; [| split; [| split; [| split]]].
      * intros i Hi. apply Halloc'. unfold c1. cbn [req_msgbuf].
        destruct (decide (j = i)) as [->|Hne].
        -- eexists. apply list_lookup_insert_eq. lia.
        -- rewrite list_lookup_insert_ne by exact Hne. apply Halloc. lia.
      * destruct Hcore' as (_ & Hcap' & _).
        eapply Forall_impl; [exact Hcap' |]. auto.
      * rewrite Hsent'. unfold c1. cbn [num_reqs_sent]. lia.
      * rewrite Hresps'. exact Hresps.
      * rewrite Hidx'. unfold c1. cbn [pending]. rewrite Hidx.
        rewrite seq_S. reflexivity.
  - exists c. split; [exact Hrun |].
    destruct Hcore as (Hlen & Hcap & Hnd & Hpend).
    assert (length (pending c) = kSessionReqWindow) as Hpl.
    { rewrite <- (length_fmap pend_msgbuf), Hidx, length_seq. reflexivity. }
    unfold ReqInReq.client_inv. split; [exact Hlen |]. split.
    { apply Forall_lookup. intros j slot Hj.
      destruct (Halloc j) as (b & Hb).
      { apply lookup_lt_Some in Hj. lia. }
      rewrite Hb in Hj. injection Hj as <-. exists b. split; [reflexivity |].
      apply (Forall_lookup_1 _ _ _ _ Hcap Hb). reflexivity. }
    pose proof window_range as Hw. unfold kAppNumReqs in *.
    repeat split; auto; lia.
Qed.

Lemma forallb_replicate {A} (f : A -> bool) n x :
  f x = true -> forallb f (replicate n x) = true.
Proof.
  intros Hx. induction n as [|n IH]; [reflexivity |].
  cbn [replicate forallb]. rewrite Hx. exact IH.
Qed.

(** A response to a request the runtime holds: the continuation passes its
    checks and, while requests are left to send, sends the next one from
    the buffer that has just come free. *)
Lemma deliver_inv sample k c :
  client_inv c ->
  (k < length (pending c))%nat ->
  exists c', deliver sample k c = Some c' /\ client_inv c'.
Proof.
  pose proof window_range as Hw. unfold kAppNumReqs in Hw.
  intros (Hlen & Hslots & Hresps & Hcount & Hmax & Hfull & Hwin & Hnd & Hpend) Hk.
  destruct (lookup_lt_is_Some_2 _ _ Hk) as [p Hp].
  destruct (Forall_lookup_1 _ _ _ _ Hpend Hp)
    as (b & sz & Hi & Hslot & Hsz & Hdata & Hts & Htm).
  set (i := pend_msgbuf p) in *.
  assert (wrap8 (Z.of_nat i) = Z.of_nat i) as Hfill
    by (apply Z.mod_small; lia).
  assert (forall x, x = Z.of_nat i ->
            plus_one x <> 255 /\
            plus_one (plus_one (plus_one x)) = Z.of_nat i + 3) as Hbyte.
  { intros x ->. unfold plus_one, wrap8.
    rewrite !Z.mod_small; rewrite ?Z.mod_small; lia. }
  unfold ReqInReq.deliver. rewrite Hp. cbn [mbind option_bind].
  fold i. rewrite Hslot. cbn [mbind option_bind]. rewrite Hdata, Hfill.
  rewrite nested_request_spec
    by (apply Forall_replicate; apply Hbyte; reflexivity).
  cbn [mbind option_bind]. rewrite fmap_replicate.
  rewrite (proj2 (Hbyte _ eq_refl)).
  unfold client_cont_func. rewrite Hts, Htm.
  assert (client_cont_check (replicate (Z.to_nat sz) (Z.of_nat i + 3))
            (Z.to_nat sz) (Z.of_nat i) = true) as ->.
  { unfold client_cont_check.
    rewrite bool_decide_eq_true_2 by apply length_replicate. cbn [andb].
    rewrite take_ge by (rewrite length_replicate; lia).
    apply forallb_replicate. rewrite Hfill. apply Z.eqb_refl. }
  unfold release_respone. cbn [req_msgbuf num_reqs_sent num_rpc_resps pending].
  assert (wrap64 (num_rpc_resps c + 1) = num_rpc_resps c + 1) as ->
    by (apply Z.mod_small; unfold kAppNumReqs in Hmax; lia).
  rewrite Nat2Z.id.
  (* the requests left once the answered one is released *)
  assert (pending c = take k (pending c) ++ p :: drop (S k) (pending c)) as Hsplit
    by (symmetry; apply take_drop_middle, Hp).
  assert (NoDup (pend_msgbuf <$> delete k (pending c)) /\
          i ∉ (pend_msgbuf <$> delete k (pending c))) as [Hnd' Hfresh].
  { rewrite delete_take_drop. rewrite Hsplit in Hnd.
    rewrite fmap_app, fmap_cons in Hnd. rewrite fmap_app.
    apply NoDup_app in Hnd as (Hn1 & Hdisj & Hn2).
    apply NoDup_cons in Hn2 as [Hnin Hn2]. split.
    - apply NoDup_app. split; [exact Hn1 |]. split; [| exact Hn2].
      intros x Hx Hx'. apply (Hdisj x Hx). apply elem_of_cons. auto.
    - rewrite elem_of_app. intros [Hin|Hin]; [| contradiction].
      apply (Hdisj _ Hin). apply elem_of_cons. auto. }
  assert (length (delete k (pending c)) = (length (pending c) - 1)%nat) as Hdl.
  { rewrite length_delete by (exists p; exact Hp). reflexivity. }
  assert (Forall slot_cap (req_msgbuf c)) as Hcap.
  { eapply Forall_impl; [exact Hslots |].
    intros slot (b0 & -> & Hb0) b1 [= <-]. exact Hb0. }
  set (c1 := mkClient (req_msgbuf c) (num_reqs_sent c) (num_rpc_resps c + 1)
                      (delete k (pending c))).
  assert (client_core c1) as Hcore1.
  { unfold ReqInReq.client_core, c1. cbn [req_msgbuf pending].
    split; [exact Hlen |]. split; [exact Hcap |]. split; [exact Hnd' |].
    apply Forall_delete. exact Hpend. }
  destruct (Z.ltb_spec (num_reqs_sent c) (Z.of_nat kAppNumReqs)) as [Hlt|Hge].
  - specialize (Hfull Hlt).
    destruct (helper_core sample i c1 Hcore1 Hi)
      as (c' & Hrun & (Hlen' & Hcap' & Hnd'' & Hpend') & Hsent' & Hresps'
          & Hidx' & Halloc').
    + exists b. exact Hslot.
    + unfold c1. cbn [pending]. lia.
    + exact Hfresh.
    + unfold c1. cbn [num_reqs_sent]. lia.
    + exists c'. split; [exact Hrun |].
      assert (length (pending c') = kSessionReqWindow) as Hpl.
      { rewrite <- (length_fmap pend_msgbuf), Hidx', length_app, length_fmap.
        unfold c1. cbn [pending length]. lia. }
      unfold c1 in Hsent', Hresps'. cbn [num_reqs_sent num_rpc_resps] in *.
      unfold ReqInReq.client_inv. split; [exact Hlen' |]. split.
      { apply Forall_lookup. intros j slot Hj.
        destruct (lookup_lt_is_Some_2 (req_msgbuf c) j) as [x Hx];
          [apply lookup_lt_Some in Hj; lia |].
        destruct (Forall_lookup_1 _ _ _ _ Hslots Hx) as (b0 & -> & _).
        destruct (Halloc' j) as (b1 & Hb1).
        { exists b0. unfold c1. cbn [req_msgbuf]. exact Hx. }
        rewrite Hb1 in Hj. injection Hj as <-. exists b1.
        split; [reflexivity |].
        apply (Forall_lookup_1 _ _ _ _ Hcap' Hb1). reflexivity. }
      unfold kAppNumReqs in *. repeat split; auto; lia.
  - exists c1. split; [reflexivity |].
    unfold ReqInReq.client_inv, c1.
    cbn [req_msgbuf num_reqs_sent num_rpc_resps pending].
    split; [exact Hlen |]. split; [exact Hslots |].
    destruct Hcore1 as (_ & _ & _ & Hpend1).
    unfold kAppNumReqs in *. repeat split; auto; lia.
Qed.

Lemma client_inv_reachable samples c :
  client_reachable samples c -> client_inv c.
Proof.
  induction 1 as [c Hstart|c sample k c' _ IH Hdel].
  - destruct (client_start_inv samples) as (c0 & Hstart0 & Hinv).
    rewrite Hstart in Hstart0. injection Hstart0 as <-. exact Hinv.
  - assert (k < length (pending c))%nat as Hk.
    { unfold ReqInReq.deliver in Hdel.
      destruct (pending c !! k) eqn:Hp; [| discriminate].
      apply lookup_lt_Some in Hp. exact Hp. }
    destruct (deliver_inv sample k c IH Hk) as (c'' & Hdel' & Hinv).
    rewrite Hdel in Hdel'. injection Hdel' as <-. exact Hinv.
Qed.

(** X19. No assertion of the client thread fails and no check of its
    continuation: filling the window completes, and from every state the
    thread reaches, whichever pending request is answered next and whatever
    number is drawn, the continuation runs to its end, its call of
    [client_request_helper] finding its buffer index in range, the buffer
    large enough, and a free slot in the window ([ret == 0]). *)
Theorem client_thread_never_aborts samples :
  (exists c, client_start samples = Some c) /\
  (forall c, client_reachable samples c ->
     forall sample k, (k < length (pending c))%nat ->
       exists c', deliver sample k c = Some c').
Proof.
  split.
  - destruct (client_start_inv samples) as (c & Hstart & _). eauto.
  - intros c Hreach sample k Hk.
    destruct (deliver_inv sample k c (client_inv_reachable _ _ Hreach) Hk)
      as (c' & Hdel & _).
    eauto.
Qed.

(** X20. The counters of the client thread: responses and pending requests add
    up to the requests sent, never more than [kAppNumReqs] requests are
    sent nor more than the window pending, the window stays full while
    requests are left to send, and when nothing is pending any more exactly
    [kAppNumReqs] responses have arrived, which is what the thread asserts
    at its end. *)
Theorem client_thread_counts samples c :
  client_reachable samples c ->
  0 <= num_rpc_resps c /\
  num_reqs_sent c = num_rpc_resps c + Z.of_nat (length (pending c)) /\
  num_reqs_sent c <= Z.of_nat kAppNumReqs /\
  (length (pending c) <= kSessionReqWindow)%nat /\
  (num_reqs_sent c < Z.of_nat kAppNumReqs ->
   length (pending c) = kSessionReqWindow) /\
  (pending c = [] -> num_rpc_resps c = Z.of_nat kAppNumReqs).
Proof.
  intros Hreach. apply client_inv_reachable in Hreach
    as (_ & _ & Hresps & Hcount & Hmax & Hfull & Hwin & _).
  repeat split; auto.
  intros Hnil. rewrite Hnil in *. cbn [length] in *.
  pose proof window_range as Hw. lia.
Qed.

(** X21. No request buffer is in use by two pending requests, and none is
    refilled while a request that uses it is pending: the buffer of every
    pending request still holds [req_size] bytes, each the fill byte of its
    index, [req_size] and the index being what the tag of the request
    unpacks to. *)
Theorem client_buffers_not_shared samples c :
  client_reachable samples c ->
  NoDup (pend_msgbuf <$> pending c) /\
  Forall (fun p =>
    exists b req_size,
      (pend_msgbuf p < kSessionReqWindow)%nat /\
      req_msgbuf c !! pend_msgbuf p = Some (Some b) /\
      1 <= req_size < kMaxMsgSize /\
      buf_data b
      = replicate (Z.to_nat req_size) (wrap8 (Z.of_nat (pend_msgbuf p))) /\
      tag_req_size o (tag_of_word o (pend_tag p)) = req_size /\
      tag_msgbuf_i o (tag_of_word o (pend_tag p)) = Z.of_nat (pend_msgbuf p))
    (pending c).
Proof.
  intros Hreach. apply client_inv_reachable in Hreach
    as (_ & _ & _ & _ & _ & _ & _ & Hnd & Hpend).
  split; [exact Hnd | exact Hpend].
Qed.

End ClientFacts.

Lemma sample_client_started :
  ReqInReq.client_start ReqInReq.LittleEndian 2 4 [5; 6]
  = Some ReqInReq.sample_client.
Proof. vm_compute. reflexivity. Defined.

Lemma sample_window_range : (0 < 2 < ReqInReq.kAppNumReqs)%nat.
Proof. unfold ReqInReq.kAppNumReqs. lia. Defined.

Lemma client_thread_never_aborts_witness :
  exists c',
    ReqInReq.deliver ReqInReq.LittleEndian 2 4 7 1 ReqInReq.sample_client
    = Some c'.
Proof.
  destruct (client_thread_never_aborts ReqInReq.LittleEndian 2 4
              sample_window_range ltac:(lia) [5; 6]) as [_ Hstep].
  apply (Hstep ReqInReq.sample_client).
  - apply ReqInReq.client_started. exact sample_client_started.
  - vm_compute. lia.
Defined.

Lemma answer_oldest_reachable n : forall c c',
  ReqInReq.client_reachable ReqInReq.LittleEndian 2 4 [5; 6] c ->
  ReqInReq.answer_oldest n c = Some c' ->
  ReqInReq.client_reachable ReqInReq.LittleEndian 2 4 [5; 6] c'.
Proof.
  induction n as [|n IH]; intros c c' Hreach; simpl.
  - intros [= <-]. exact Hreach.
  - destruct (ReqInReq.deliver _ _ _ 9 0 c) as [c1|] eqn:Hdel; [| discriminate].
    apply IH. eapply ReqInReq.client_delivered; eauto.
Defined.

Lemma sample_client_done_reachable :
  ReqInReq.client_reachable ReqInReq.LittleEndian 2 4 [5; 6]
    ReqInReq.sample_client_done.
Proof.
  apply (answer_oldest_reachable 30 ReqInReq.sample_client).
  - apply ReqInReq.client_started. exact sample_client_started.
  - vm_compute. reflexivity.
Defined.

Lemma client_thread_counts_witness :
  ReqInReq.pending ReqInReq.sample_client_done = [] /\
  ReqInReq.num_rpc_resps ReqInReq.sample_client_done
  = Z.of_nat ReqInReq.kAppNumReqs.
Proof.
  destruct (client_thread_counts ReqInReq.LittleEndian 2 4
              sample_window_range ltac:(lia) [5; 6] ReqInReq.sample_client_done
              sample_client_done_reachable)
    as (_ & _ & _ & _ & _ & Hdone).
  split; [reflexivity | apply Hdone; reflexivity].
Defined.

Lemma client_buffers_not_shared_witness :
  NoDup (ReqInReq.pend_msgbuf <$> ReqInReq.pending ReqInReq.sample_client).
Proof.
  destruct (client_buffers_not_shared ReqInReq.LittleEndian 2 4
              sample_window_range ltac:(lia) [5; 6] ReqInReq.sample_client)
    as [Hnd _].
  - apply ReqInReq.client_started. exact sample_client_started.
  - exact Hnd.
Defined.

(* ===================================================================== *)
(** * More about the timing wheel tests *)
(* ===================================================================== *)

Section WheelEdges.
Import TimingWheelTest.

Variable num_wslots : nat.
Variable wslot_width_tsc : Z.
Variable kSessionCredits : nat.

Hypothesis some_wslot : (0 < num_wslots)%nat.
Hypothesis some_width : 0 < wslot_width_tsc.

Local Abbreviation insert := (insert num_wslots wslot_width_tsc).
Local Abbreviation advance := (advance wslot_width_tsc).
Local Abbreviation reap_loop := (reap_loop wslot_width_tsc).
Local Abbreviation reap := (reap wslot_width_tsc).
Local Abbreviation basic_prologue := (basic_prologue num_wslots wslot_width_tsc).
Local Abbreviation basic_poll := (basic_poll wslot_width_tsc).
Local Abbreviation basic_polls := (basic_polls wslot_width_tsc).
Local Abbreviation entry_in_wslot := (entry_in_wslot num_wslots).
Local Abbreviation entry_ready := (entry_ready num_wslots).
Local Abbreviation entry_due := (entry_due num_wslots wslot_width_tsc).
Local Abbreviation reachable :=
  (reachable num_wslots wslot_width_tsc kSessionCredits).

Lemma reap_always t tw : exists tw', reap t tw = Some tw'.
Proof. exact (reap_total num_wslots wslot_width_tsc some_wslot t tw some_width). Qed.

(** Where [reap] stops: the current bucket is not over yet, and the wheel
    has not run ahead of a clock it was behind. *)
Lemma reap_loop_exit t fuel : forall tw tw',
  reap_loop fuel t tw = Some tw' ->
  t < base_tsc tw' + wslot_width_tsc /\
  (base_tsc tw <= t -> base_tsc tw' <= t).
Proof.
  induction fuel as [|fuel IH]; intros tw tw'; simpl; [discriminate |].
  destruct (Z.leb_spec (base_tsc tw + wslot_width_tsc) t) as [Hle|Hgt].
  - intros Hrun. destruct (IH _ _ Hrun) as [Hexit Hbase].
    rewrite base_tsc_advance in Hbase. split; [exact Hexit | intros _; lia].
  - intros [= <-]. split; [lia | auto].
Qed.

(** An empty wheel stays empty. *)
Lemma replicate_rotate {A} (x : A) n : replicate n x ++ [x] = x :: replicate n x.
Proof. induction n as [|n IH]; simpl; [| rewrite IH]; reflexivity. Qed.

Lemma reap_loop_empty t fuel : forall tw tw',
  wheel tw = replicate num_wslots [] ->
  reap_loop fuel t tw = Some tw' ->
  wheel tw' = replicate num_wslots [] /\ ready_queue tw' = ready_queue tw.
Proof.
  induction fuel as [|fuel IH]; intros tw tw' Hempty; simpl; [discriminate |].
  destruct (base_tsc tw + wslot_width_tsc <=? t).
  - intros Hrun. apply IH in Hrun.
    + destruct Hrun as [Hw' Hq']. split; [exact Hw' |]. rewrite Hq'.
      unfold TimingWheelTest.advance. rewrite Hempty.
      destruct num_wslots; simpl; [reflexivity | apply app_nil_r].
    + unfold TimingWheelTest.advance. rewrite Hempty.
      destruct num_wslots as [|n]; simpl; [reflexivity |].
      apply replicate_rotate.
  - intros [= <-]. auto.
Qed.

(** The entry of the test moves one bucket nearer with every bucket
    crossed, into the ready queue from the current bucket, and stays
    there. *)
Lemma advance_entry_due due tw : entry_due due tw -> entry_due due (advance tw).
Proof.
  unfold TimingWheelTest.entry_due, TimingWheelTest.entry_ready,
    TimingWheelTest.entry_in_wslot, TimingWheelTest.advance.
  intros [[Hw Hq]|(j & (Hj & Hw & Hq) & Hdue)]; rewrite Hw.
  - left. destruct num_wslots as [|n]; [lia |]. simpl.
    rewrite replicate_rotate, Hq, app_nil_r. auto.
  - destruct j as [|j]; simpl.
    + left. rewrite Hq. simpl.
      replace (num_wslots - 1 - 0)%nat with (num_wslots - 1)%nat by lia.
      rewrite replicate_rotate.
      destruct num_wslots as [|n]; [lia |]. simpl.
      rewrite Nat.sub_0_r. auto.
    + right. exists j. simpl. split; [| lia].
      split; [lia |]. split; [| rewrite Hq; reflexivity].
      rewrite <- !app_assoc. simpl. do 2 f_equal.
      rewrite replicate_rotate.
      replace (num_wslots - 1 - j)%nat with (S (num_wslots - 1 - S j)) by lia.
      reflexivity.
Qed.

Lemma reap_loop_entry_due due t fuel : forall tw tw',
  entry_due due tw -> reap_loop fuel t tw = Some tw' -> entry_due due tw'.
Proof.
  induction fuel as [|fuel IH]; intros tw tw' Hdue; simpl; [discriminate |].
  destruct (base_tsc tw + wslot_width_tsc <=? t).
  - apply IH, advance_entry_due, Hdue.
  - intros [= <-]. exact Hdue.
Qed.

Lemma alter_replicate_snoc {A} (e : A) n : forall k,
  (k < n)%nat ->
  alter (fun bkt => bkt ++ [e]) k (replicate n [])
  = replicate k [] ++ [[e]] ++ replicate (n - 1 - k) [].
Proof.
  unfold alter.
  induction n as [|n IH]; intros [|k] Hk; simpl; try lia.
  - do 2 f_equal. lia.
  - f_equal. rewrite IH by lia. simpl. do 3 f_equal. lia.
Qed.

(** X22. The test [Basic].  With a clock that does not run backwards from the
    time the wheel is built, the assertion on the empty wheel holds and the
    entry is inserted; polling never fails; and whatever was polled before,
    a poll whose reading is two bucket widths or more after the reading of
    the insertion finds the entry, and only it, in the ready queue: the
    loop of the test ends. *)
Theorem basic_test_entry_sent start_tsc t0 t1 :
  0 <= start_tsc <= t0 -> t0 <= t1 -> t1 + wslot_width_tsc < 2 ^ 64 ->
  exists tw,
    basic_prologue start_tsc t0 t1 = Some tw /\
    (forall ts, exists tw1, basic_polls ts tw = Some tw1) /\
    (forall ts tw1 t,
       basic_polls ts tw = Some tw1 ->
       t1 + 2 * wslot_width_tsc <= t ->
       exists tw2,
         basic_poll t tw1 = Some (true, tw2) /\ ready_queue tw2 = [dummy_ent]).
Proof.
  intros Hstart Hmono Hfit.
  destruct (reap_always t0 (TimingWheel_new num_wslots start_tsc)) as [tw0 Hreap0].
  destruct (reap_loop_empty _ _ (TimingWheel_new num_wslots start_tsc) _
              eq_refl Hreap0) as [Hw0 Hq0].
  destruct (reap_loop_exit _ _ _ _ Hreap0) as [_ Hbase0].
  specialize (Hbase0 ltac:(simpl; lia)). simpl in Hq0.
  assert (wrap64 (t1 + wslot_width_tsc) = t1 + wslot_width_tsc) as Hd
    by (apply Z.mod_small; lia).
  set (tw := insert dummy_ent (wrap64 (t1 + wslot_width_tsc)) tw0).
  assert (entry_due (t1 + 2 * wslot_width_tsc) tw) as Hdue.
  { right. exists (wslot_of num_wslots wslot_width_tsc tw0 (wrap64 (t1 + wslot_width_tsc))).
    pose proof (wslot_of_lt num_wslots wslot_width_tsc some_wslot tw0
                  (wrap64 (t1 + wslot_width_tsc))) as Hlt.
    split.
    - split; [exact Hlt |]. unfold tw, TimingWheelTest.insert. simpl.
      rewrite Hw0, Hq0. split; [| reflexivity].
      apply alter_replicate_snoc, Hlt.
    - unfold tw. simpl. unfold wslot_of. rewrite Hd.
      destruct (Z.ltb_spec (t1 + wslot_width_tsc) (base_tsc tw0 + wslot_width_tsc)).
      + simpl. lia.
      + assert (0 <= (t1 + wslot_width_tsc - base_tsc tw0) / wslot_width_tsc)
          by (apply Z.div_pos; lia).
        pose proof (Z.mul_div_le (t1 + wslot_width_tsc - base_tsc tw0)
                      wslot_width_tsc some_width).
        nia. }
  exists tw. split.
  { unfold TimingWheelTest.basic_prologue. rewrite Hreap0, Hq0.
    rewrite bool_decide_eq_true_2 by reflexivity. reflexivity. }
  assert (forall ts tw1, entry_due (t1 + 2 * wslot_width_tsc) tw1 ->
            exists tw2, basic_polls ts tw1 = Some tw2 /\
                        entry_due (t1 + 2 * wslot_width_tsc) tw2) as Hpolls.
  { induction ts as [|t ts IH]; intros tw1 Hdue1; simpl; [eauto |].
    unfold TimingWheelTest.basic_poll.
    destruct (reap_always t tw1) as [tw2 Hreap].
    rewrite Hreap. apply IH. eapply reap_loop_entry_due; eauto. }
  split.
  - intros ts. destruct (Hpolls ts tw Hdue) as (tw1 & Hrun & _). eauto.
  - intros ts tw1 t Hrun Ht.
    destruct (Hpolls ts tw Hdue) as (tw1' & Hrun' & Hdue1).
    rewrite Hrun in Hrun'. injection Hrun' as <-.
    destruct (reap_always t tw1) as [tw2 Hreap].
    pose proof (reap_loop_entry_due _ _ _ _ _ Hdue1 Hreap) as Hdue2.
    destruct (reap_loop_exit _ _ _ _ Hreap) as [Hexit _].
    unfold TimingWheelTest.basic_poll. rewrite Hreap.
    destruct Hdue2 as [[_ Hq2]|(j & _ & Hj)]; [| nia].
    exists tw2. rewrite Hq2. split; reflexivity.
Qed.

Local Abbreviation test_inv_counts := (test_inv_counts kSessionCredits).

(** [num_pkts_sent] does not wrap around: the window is far smaller than
    the range of [size_t]. *)
Hypothesis credits_fit : num_pkts + Z.of_nat kSessionCredits <= 2 ^ 64.

Lemma test_inv_counts_reachable start_tsc last c :
  reachable start_tsc last c -> test_inv_counts c.
Proof.
  induction 1 as [|c c' Hreach IH Hstep].
  - unfold TimingWheelTest.test_inv_counts, initial, wheel_count, num_pkts; simpl.
    repeat split; try lia. clear. induction num_wslots; simpl; auto.
  - pose proof (test_inv_reachable num_wslots wslot_width_tsc kSessionCredits
                  some_wslot _ _ _ Hreach) as [Hwf Hold].
    destruct Hstep as [iters t cyc tsc tw last' Hit Hsend
                      | iters t cyc now_tsc k t' Hlt Hbody
                      | iters t cyc Hge
                      | iters t Hit];
      unfold TimingWheelTest.test_inv_counts in *; simpl in *.
    + destruct IH as (Hq & Hsent & Hc & _).
      destruct (send_window_spec num_wslots wslot_width_tsc some_wslot
                  _ _ _ _ _ _ Hwf Hsend) as (_ & Hc' & Hq').
      split; [congruence |]. split; [exact Hsent | lia].
    + destruct IH as (Hq & Hsent & Hc).
      destruct iters as [|iters]; [| lia].
      unfold TimingWheelTest.while_body in Hbody.
      destruct (TimingWheelTest.reap _ now_tsc (the_wheel t)) as [tw|] eqn:Hreap;
        [| discriminate].
      destruct (reap_loop_spec num_wslots wslot_width_tsc some_wslot
                  _ _ _ _ Hwf Hreap) as [Hwf1 Hcnt].
      rewrite Hq in Hcnt. simpl in Hcnt.
      destruct (Z.ltb_spec 0 (Z.of_nat (length (ready_queue tw)))) as [Hpos|Hz].
      * destruct (send_more_spec num_wslots wslot_width_tsc some_wslot cyc
                    (length (ready_queue tw)) tw (last_tsc t) Hwf1)
          as (tw' & last' & Hrun & _ & Hc' & Hq'); [lia |].
        rewrite Hrun in Hbody. injection Hbody as <- <-. simpl.
        unfold wrap64. rewrite Z.mod_small by lia.
        split; [destruct (ready_queue tw'); [reflexivity | simpl in Hq'; lia] |].
        split; lia.
      * injection Hbody as <- <-. simpl.
        split; [destruct (ready_queue tw); [reflexivity | simpl in Hz; lia] |].
        split; lia.
    + destruct IH as (_ & Hsent & Hc).
      split; [reflexivity |]. split; [exact Hsent |]. split; [exact Hc | lia].
    + destruct IH as (Hq & Hsent & _). auto.
Qed.

(** X23. The transmit loop of [RateTest] runs in the first [for]-iteration only:
    [num_pkts_sent] is never reset, so at the head of the loop in a later
    iteration no packet is left to send and the loop is left at once.  The
    count overshoots [num_pkts] by less than a window. *)
Theorem rate_test_later_iterations_idle start_tsc last iters cycles_per_pkt t :
  reachable start_tsc last (AtWhile (S iters) cycles_per_pkt, t) ->
  num_pkts <= num_pkts_sent t < num_pkts + Z.of_nat kSessionCredits /\
  (forall now_tsc,
     exists tw, reap now_tsc (the_wheel t) = Some tw) /\
  ~ num_pkts_sent t < num_pkts.
Proof.
  intros Hreach.
  pose proof (test_inv_reachable num_wslots wslot_width_tsc kSessionCredits
                some_wslot _ _ _ Hreach) as [_ Hold].
  pose proof (test_inv_counts_reachable _ _ _ Hreach) as (_ & Hsent & _).
  simpl in *. split; [lia |]. split; [| lia].
  intros now_tsc. apply reap_always.
Qed.

(** X24. No entry the test inserts ever leaves the wheel for good: at the head
    of the [for] loop before iteration [iters] the wheel holds [iters]
    windows of entries and the ready queue is empty, so every iteration but
    the first starts on a wheel that still holds the entries of the ones
    before. *)
Theorem rate_test_wheel_accumulates start_tsc last iters t :
  reachable start_tsc last (AtFor iters, t) ->
  wheel_count (the_wheel t) = (iters * kSessionCredits)%nat /\
  ready_queue (the_wheel t) = [].
Proof.
  intros Hreach.
  pose proof (test_inv_counts_reachable _ _ _ Hreach) as (Hq & _ & Hc & _).
  simpl in *. auto.
Qed.

End WheelEdges.

Lemma basic_test_entry_sent_witness :
  exists tw,
    TimingWheelTest.basic_prologue 4 10 0 3 5 = Some tw /\
    (forall ts tw1 t,
       TimingWheelTest.basic_polls 10 ts tw = Some tw1 ->
       5 + 2 * 10 <= t ->
       exists tw2,
         TimingWheelTest.basic_poll 10 t tw1 = Some (true, tw2) /\
         TimingWheelTest.ready_queue tw2 = [TimingWheelTest.dummy_ent]).
Proof.
  destruct (basic_test_entry_sent 4 10 (Nat.lt_0_succ 3) ltac:(lia) 0 3 5)
    as (tw & Hpro & _ & Hsent); [lia | lia | lia |].
  exists tw. split; [exact Hpro | exact Hsent].
Defined.

Lemma run_while_reachable n : forall now_tsc step t t',
  TimingWheelTest.reachable 4 10 2 0 0 (TimingWheelTest.AtWhile 0 15, t) ->
  TimingWheelTest.run_while n now_tsc step t = Some t' ->
  TimingWheelTest.reachable 4 10 2 0 0 (TimingWheelTest.AtWhile 0 15, t').
Proof.
  induction n as [|n IH]; intros now_tsc step t t' Hreach; simpl.
  - intros [= <-]. exact Hreach.
  - destruct (Z.ltb_spec (TimingWheelTest.num_pkts_sent t)
                TimingWheelTest.num_pkts) as [Hlt|Hge].
    + destruct (TimingWheelTest.while_body 4 10 now_tsc 15 t)
        as [[k t1]|] eqn:Hbody; [| discriminate].
      apply IH. eapply TimingWheelTest.reachable_step; [exact Hreach |].
      eapply TimingWheelTest.step_while; eauto.
    + intros [= <-]. exact Hreach.
Defined.

Lemma sample_test_second_reachable :
  TimingWheelTest.reachable 4 10 2 0 0
    (TimingWheelTest.AtFor 1, TimingWheelTest.sample_test_second).
Proof.
  eapply TimingWheelTest.reachable_step.
  - apply (run_while_reachable (Z.to_nat 6000) 45 40 TimingWheelTest.sample_test
             TimingWheelTest.sample_test_sent sample_test_reachable).
    vm_compute. reflexivity.
  - apply TimingWheelTest.step_exit. vm_compute. intros Hlt. discriminate Hlt.
Defined.

Lemma sample_test_second_loop_reachable :
  TimingWheelTest.reachable 4 10 2 0 0
    (TimingWheelTest.AtWhile 1 15, TimingWheelTest.sample_test_second_loop).
Proof.
  eapply TimingWheelTest.reachable_step; [exact sample_test_second_reachable |].
  apply (TimingWheelTest.step_window 4 10 2 1
           TimingWheelTest.sample_test_second 15 250000); [lia |].
  apply surjective_pairing.
Defined.

Lemma rate_test_later_iterations_idle_witness :
  TimingWheelTest.num_pkts
  <= TimingWheelTest.num_pkts_sent TimingWheelTest.sample_test_second_loop
  < TimingWheelTest.num_pkts + 2.
Proof.
  destruct (rate_test_later_iterations_idle 4 10 2 (Nat.lt_0_succ 3)
              ltac:(lia) ltac:(vm_compute; discriminate) 0 0 0 15
              TimingWheelTest.sample_test_second_loop
              sample_test_second_loop_reachable) as [Hsent _].
  exact Hsent.
Defined.

Lemma rate_test_wheel_accumulates_witness :
  TimingWheelTest.wheel_count
    (TimingWheelTest.the_wheel TimingWheelTest.sample_test_second) = 2%nat.
Proof.
  destruct (rate_test_wheel_accumulates 4 10 2 (Nat.lt_0_succ 3)
              ltac:(vm_compute; discriminate) 0 0 1
              TimingWheelTest.sample_test_second sample_test_second_reachable)
    as [Hc _].
  exact Hc.
Defined.

(* ===================================================================== *)
(** * The life of an in-flight entry *)
(* ===================================================================== *)

Section SmRetryLifecycle.
Import SmRetry.

(** X4. [add_to_in_flight] touches nothing but the end of the in-flight list:
    sessions, table and sent datagrams stay, the entries that were there
    keep their place and timestamp, and no other session changes its
    answer to [is_in_flight]. *)
Theorem add_to_in_flight_keeps_others sess tsc r r1 :
  add_to_in_flight sess tsc r = Some (tt, r1) ->
  sessions r1 = sessions r /\ session_vec r1 = session_vec r /\
  udp_out r1 = udp_out r /\
  length (in_flight_vec r1) = S (length (in_flight_vec r)) /\
  (forall i req, in_flight_vec r !! i = Some req ->
                 in_flight_vec r1 !! i = Some req) /\
  (forall other, other <> sess ->
     fst <$> is_in_flight other r1 = fst <$> is_in_flight other r).
Proof.
  intros Hadd. apply add_to_in_flight_spec in Hadd as (_ & _ & _ & _ & ->).
  do 3 (split; [reflexivity |]). cbn [in_flight_vec set_in_flight_vec].
  split; [rewrite length_app; simpl; lia |]. split.
  - intros i req Hi. apply lookup_app_l_Some, Hi.
  - intros other Hne. rewrite !is_in_flight_spec. simpl. f_equal.
    apply bool_decide_ext. rewrite fmap_app, elem_of_app. simpl.
    rewrite list_elem_of_singleton. split; [intros [?|?]; [auto | congruence] | auto].
Qed.

Lemma add_to_in_flight_keeps_others_witness :
  fst <$> is_in_flight 2%N
            (set_in_flight_vec [mk_in_flight_req 100 1%N] sample_rpc_idle)
  = Some false.
Proof.
  destruct (add_to_in_flight_keeps_others 1%N 100 sample_rpc_idle
              (set_in_flight_vec [mk_in_flight_req 100 1%N] sample_rpc_idle))
    as (_ & _ & _ & _ & _ & Hothers).
  - vm_compute. reflexivity.
  - rewrite (Hothers 2%N) by discriminate. vm_compute. reflexivity.
Defined.

Section Lifecycle.
Context `{Externals}.

Lemma refresh_session cur_tsc req :
  session (refresh cur_tsc req) = session req.
Proof. unfold refresh. destruct (expired cur_tsc req); reflexivity. Qed.

(** X11. A session is added, a sweep passes, the session is removed: the removal
    completes, and what is left is the in-flight list from before the
    addition as the sweep alone would have left it, the same sessions in
    the same order, each with its old timestamp or, when expired, the time
    of the sweep; the session is not in flight any more. *)
Theorem in_flight_lifecycle sess tsc cur_tsc r r1 r2 :
  add_to_in_flight sess tsc r = Some (tt, r1) ->
  retry_in_flight cur_tsc r1 = Some (tt, r2) ->
  exists r3,
    remove_from_in_flight sess r2 = Some (tt, r3) /\
    sessions r3 = sessions r /\ session_vec r3 = session_vec r /\
    in_flight_vec r3
    = (fun req => mk_in_flight_req
                    (if expired cur_tsc req then cur_tsc else prev_tsc req)
                    (session req)) <$> in_flight_vec r /\
    fst <$> is_in_flight sess r3 = Some false.
Proof.
  intros Hadd Hsweep.
  apply add_to_in_flight_spec in Hadd as (Hnull & Hm & _ & Hnin & ->).
  apply retry_in_flight_spec in Hsweep as (_ & _ & ->).
  cbn [sessions session_vec in_flight_vec set_in_flight_vec udp_out].
  assert (session <$> (refresh cur_tsc <$> in_flight_vec r)
          = session <$> in_flight_vec r) as Hsess.
  { rewrite <- list_fmap_compose. apply list_fmap_ext.
    intros i req _. apply refresh_session. }
  assert (remove_erase (mk_in_flight_req 0 sess)
            (refresh cur_tsc <$> in_flight_vec r ++ [mk_in_flight_req tsc sess])
          = refresh cur_tsc <$> in_flight_vec r) as Hrem.
  { rewrite fmap_app, remove_erase_app.
    rewrite remove_erase_absent by (rewrite Hsess; exact Hnin).
    cbn [fmap list_fmap]. rewrite remove_erase_cons, refresh_session.
    cbn [session]. rewrite bool_decide_eq_true_2 by reflexivity.
    apply app_nil_r. }
  eexists. split.
  - apply remove_from_in_flight_spec.
    cbn [sessions session_vec in_flight_vec]. rewrite Hrem.
    split; [exact Hnull |]. split; [exact Hm |]. split; [| split; [| reflexivity]].
    + rewrite !fmap_app, elem_of_app. right. cbn [fmap list_fmap].
      rewrite refresh_session. apply list_elem_of_singleton. reflexivity.
    + rewrite !length_fmap, length_app. simpl. lia.
  - rewrite is_in_flight_spec.
    unfold set_in_flight_vec. cbn [sessions session_vec in_flight_vec].
    split; [reflexivity |]. split; [reflexivity |]. split.
    + apply list_fmap_ext. intros i req _.
      unfold refresh, set_prev_tsc. destruct (expired cur_tsc req), req; reflexivity.
    + cbn [fst fmap option_fmap option_map].
      rewrite bool_decide_eq_false_2; [reflexivity |].
      rewrite Hsess. exact Hnin.
Qed.
End Lifecycle.

Lemma in_flight_lifecycle_witness :
  exists r3,
    remove_from_in_flight 1%N
      (mkRpc (sessions sample_rpc_disconnecting)
             (session_vec sample_rpc_disconnecting)
             [mk_in_flight_req sample_later 2%N; mk_in_flight_req 25000099 1%N]
             [])
    = Some (tt, r3) /\
    in_flight_vec r3 = [mk_in_flight_req sample_later 2%N].
Proof.
  destruct (in_flight_lifecycle (H := ideal_externals) 1%N 25000099 sample_later
              sample_rpc_disconnecting
              (set_in_flight_vec
                 [mk_in_flight_req 100 2%N; mk_in_flight_req 25000099 1%N]
                 sample_rpc_disconnecting)
              (mkRpc (sessions sample_rpc_disconnecting)
                     (session_vec sample_rpc_disconnecting)
                     [mk_in_flight_req sample_later 2%N; mk_in_flight_req 25000099 1%N]
                     []))
    as (r3 & Hrem & _ & _ & Hv & _).
  - vm_compute. reflexivity.
  - vm_compute. reflexivity.
  - exists r3. split; [exact Hrem |]. rewrite Hv. vm_compute. reflexivity.
Defined.

(** Witnesses of the abort conditions on the sample endpoints. *)

Lemma add_to_in_flight_aborts_witness :
  add_to_in_flight 1%N 300 sample_rpc = None.
Proof.
  apply add_to_in_flight_aborts. do 4 right.
  apply (bool_decide_unpack _). vm_compute. exact I.
Defined.

Lemma remove_from_in_flight_exactly_once_witness :
  exists r', remove_from_in_flight 2%N sample_rpc = Some (tt, r').
Proof.
  apply remove_from_in_flight_exactly_once.
  split; [discriminate |].
  split; [apply (bool_decide_unpack _); vm_compute; exact I | reflexivity].
Defined.

Lemma send_connect_req_one_aborts_witness :
  send_connect_req_one 2%N sample_rpc = None.
Proof.
  apply send_connect_req_one_aborts. do 3 right.
  exists disconnecting. split; [vm_compute; reflexivity |].
  right. right. left. reflexivity.
Defined.

Lemma retry_in_flight_same_reading_aborts_witness :
  retry_in_flight (H := ideal_externals) sample_later sample_rpc_swept = None.
Proof.
  destruct (retry_in_flight_same_reading_aborts (H := ideal_externals)
              sample_later sample_rpc) as (_ & _ & Htwice).
  apply (Htwice sample_rpc_swept (mk_in_flight_req 100 1%N) sample_sweep).
  - simpl. left.
  - vm_compute. reflexivity.
Defined.

End SmRetryLifecycle.

